(** * ParkingLot: a shallow embedding of [ParkingLot.py]

    Python objects are references.  A [ParkingSpot] is the only object
    whose fields are written after set-up ([park] and [unpark] assign
    [self.vehicle]), so spots live in a store indexed by object identity
    and every method that touches a spot threads that store.  Vehicles,
    floors and the lot itself are never written by the operations studied
    here and are plain values; a floor's grid holds spot references, so a
    spot object registered in several cells, or a floor appended twice, is
    the same store cell every time it is met.

    [print] calls write to the console only and are left out. *)

From Stdlib Require Import List ZArith String Bool Lia Sorted Permutation.
From Stdlib Require Import DecimalString.
Import ListNotations.
Local Open Scope Z_scope.

Set Implicit Arguments.

(* ================================================================= *)
(** ** Vehicle *)

Module VehicleType.
Definition BIKE : string := "BIKE"%string.
Definition CAR : string := "CAR"%string.
Definition TRUCK : string := "TRUCK"%string.
End VehicleType.

Record Vehicle : Type := mkVehicle
  { number : string;
    type : string }.

(* ================================================================= *)
(** ** Parking spot *)

Record ParkingSpot : Type := mkSpot
  { spot_type : string;
    row : Z;
    col : Z;
    vehicle : option Vehicle }.

(** [ParkingSpot(spot_type, row, col)]: a new spot starts empty. *)
Definition new_spot (t : string) (r c : Z) : ParkingSpot :=
  mkSpot t r c None.

(** Assignment to [self.vehicle]; the other fields are kept. *)
Definition set_vehicle (s : ParkingSpot) (o : option Vehicle) : ParkingSpot :=
  mkSpot (spot_type s) (row s) (col s) o.

(** Object identity of a spot, and the store of all spot objects. *)
Definition ref : Type := nat.
Definition store : Type := ref -> ParkingSpot.

Definition write (st : store) (r : ref) (s : ParkingSpot) : store :=
  fun r' => if Nat.eqb r' r then s else st r'.

(** [self.vehicle is None] *)
Definition is_free (self : ref) (st : store) : bool :=
  match vehicle (st self) with
  | None => true
  | Some _ => false
  end.

Definition park (self : ref) (v : Vehicle) (st : store) : bool * store :=
  if is_free self st && String.eqb (spot_type (st self)) (type v)
  then (true, write st self (set_vehicle (st self) (Some v)))
  else (false, st).

Definition unpark (self : ref) (st : store) : option Vehicle * store :=
  let v := vehicle (st self) in
  (v, write st self (set_vehicle (st self) None)).

(* ================================================================= *)
(** ** Parking floor *)

(** A grid cell is [None] until [add_spot] registers a spot there. *)
Definition cell : Type := option ref.

Record ParkingFloor : Type := mkFloor
  { floor_num : Z;
    spots : list (list cell) }.

(** [ParkingFloor(floor_num, rows, cols)]: [[None] * cols for _ in range(rows)];
    [range] and [*] of a negative count are empty. *)
Definition new_floor (n rows cols : Z) : ParkingFloor :=
  mkFloor n (repeat (repeat (@None ref) (Z.to_nat cols)) (Z.to_nat rows)).

(** Python list indexing: a negative index counts from the end, anything
    outside [-len, len) raises [IndexError] ([None] here). *)
Definition py_index {A : Type} (l : list A) (i : Z) : option nat :=
  let n := Z.of_nat (List.length l) in
  if (0 <=? i) && (i <? n) then Some (Z.to_nat i)
  else if (- n <=? i) && (i <? 0) then Some (Z.to_nat (n + i))
  else None.

Fixpoint set_nth {A : Type} (l : list A) (i : nat) (x : A) : list A :=
  match l, i with
  | [], _ => []
  | _ :: t, O => x :: t
  | h :: t, S j => h :: set_nth t j x
  end.

(** [self.spots[row][col] = spot] *)
Definition add_spot (f : ParkingFloor) (spot : ref) (r c : Z)
  : option ParkingFloor :=
  match py_index (spots f) r with
  | None => None
  | Some i =>
      let line := nth i (spots f) [] in
      match py_index line c with
      | None => None
      | Some j =>
          Some (mkFloor (floor_num f)
                  (set_nth (spots f) i (set_nth line j (Some spot))))
      end
  end.

(** The condition of the generator in [get_free_spots]:
    [spot and spot.is_free() and spot.spot_type == vtype]. *)
Definition counts_as_free (vtype : string) (st : store) (c : cell) : bool :=
  match c with
  | None => false
  | Some spot => is_free spot st && String.eqb (spot_type (st spot)) vtype
  end.

(** [sum(1 for row in self.spots for spot in row if ...)] *)
Definition get_free_spots (f : ParkingFloor) (vtype : string) (st : store) : Z :=
  fold_left Z.add
    (flat_map
       (fun line =>
          flat_map (fun c => if counts_as_free vtype st c then [1] else []) line)
       (spots f))
    0.

(* ================================================================= *)
(** ** Strategies *)

(** Python's built-in [sorted(xs, key=k)]: ascending by key and stable.
    The built-in is rendered as a stable insertion sort: an element goes in
    front of the first element of the already sorted rest whose key is not
    smaller, so it stays ahead of later elements with an equal key. *)
Section Sorted.
Variable A : Type.
Variable key : A -> Z.

Fixpoint insert_sorted (x : A) (l : list A) : list A :=
  match l with
  | [] => [x]
  | y :: l' =>
      if key x <=? key y then x :: y :: l' else y :: insert_sorted x l'
  end.

Fixpoint sorted (l : list A) : list A :=
  match l with
  | [] => []
  | x :: l' => insert_sorted x (sorted l')
  end.
End Sorted.

(** Strategy 1: first available spot across all floors. *)
Module FirstAvailableStrategy.

(** [for spot in row: if spot and spot.park(vehicle): return spot] *)
Fixpoint in_row (line : list cell) (v : Vehicle) (st : store)
  : option ref * store :=
  match line with
  | [] => (None, st)
  | None :: rest => in_row rest v st
  | Some spot :: rest =>
      let (ok, st') := park spot v st in
      if ok then (Some spot, st') else in_row rest v st'
  end.

(** [for row in floor.spots: ...] *)
Fixpoint in_rows (lines : list (list cell)) (v : Vehicle) (st : store)
  : option ref * store :=
  match lines with
  | [] => (None, st)
  | line :: rest =>
      match in_row line v st with
      | (Some spot, st') => (Some spot, st')
      | (None, st') => in_rows rest v st'
      end
  end.

(** [for floor in floors: ...; return None] *)
Fixpoint find_spot (floors : list ParkingFloor) (v : Vehicle) (st : store)
  : option ref * store :=
  match floors with
  | [] => (None, st)
  | floor :: rest =>
      match in_rows (spots floor) v st with
      | (Some spot, st') => (Some spot, st')
      | (None, st') => find_spot rest v st'
      end
  end.

End FirstAvailableStrategy.

(** Strategy 2: always try the lowest floor first. *)
Module LowestFloorStrategy.

Fixpoint in_row (line : list cell) (v : Vehicle) (st : store)
  : option ref * store :=
  match line with
  | [] => (None, st)
  | None :: rest => in_row rest v st
  | Some spot :: rest =>
      let (ok, st') := park spot v st in
      if ok then (Some spot, st') else in_row rest v st'
  end.

Fixpoint in_rows (lines : list (list cell)) (v : Vehicle) (st : store)
  : option ref * store :=
  match lines with
  | [] => (None, st)
  | line :: rest =>
      match in_row line v st with
      | (Some spot, st') => (Some spot, st')
      | (None, st') => in_rows rest v st'
      end
  end.

Fixpoint in_floors (floors : list ParkingFloor) (v : Vehicle) (st : store)
  : option ref * store :=
  match floors with
  | [] => (None, st)
  | floor :: rest =>
      match in_rows (spots floor) v st with
      | (Some spot, st') => (Some spot, st')
      | (None, st') => in_floors rest v st'
      end
  end.

(** [for floor in sorted(floors, key=lambda f: f.floor_num): ...] *)
Definition find_spot (floors : list ParkingFloor) (v : Vehicle) (st : store)
  : option ref * store :=
  in_floors (sorted floor_num floors) v st.

End LowestFloorStrategy.

(** The subclasses of [ParkingStrategy] that the program defines. *)
Inductive ParkingStrategy : Type :=
| FirstAvailable
| LowestFloor.

(** Dynamic dispatch of [strategy.find_spot]. *)
Definition find_spot (s : ParkingStrategy)
  : list ParkingFloor -> Vehicle -> store -> option ref * store :=
  match s with
  | FirstAvailable => FirstAvailableStrategy.find_spot
  | LowestFloor => LowestFloorStrategy.find_spot
  end.

(* ================================================================= *)
(** ** Parking lot *)

Record ParkingLot : Type := mkLot
  { name : string;
    floors : list ParkingFloor;
    strategy : ParkingStrategy }.

(** [ParkingLot(name, strategy)] *)
Definition new_lot (n : string) (s : ParkingStrategy) : ParkingLot :=
  mkLot n [] s.

(** [self.floors.append(floor)] *)
Definition add_floor (lot : ParkingLot) (f : ParkingFloor) : ParkingLot :=
  mkLot (name lot) (floors lot ++ [f]) (strategy lot).

Definition park_vehicle (lot : ParkingLot) (v : Vehicle) (st : store)
  : option ref * store :=
  find_spot (strategy lot) (floors lot) v st.

(** The scan of [unpark_vehicle]; the test on a cell is
    [spot and spot.vehicle and spot.vehicle.number == number], and neither
    class defines [__bool__] or [__len__], so an object is truthy. *)
Module Unpark.
Fixpoint in_row (line : list cell) (num : string) (st : store)
  : option (option Vehicle * store) :=
  match line with
  | [] => None
  | None :: rest => in_row rest num st
  | Some spot :: rest =>
      match vehicle (st spot) with
      | None => in_row rest num st
      | Some w =>
          if String.eqb (number w) num then Some (unpark spot st)
          else in_row rest num st
      end
  end.

Fixpoint in_rows (lines : list (list cell)) (num : string) (st : store)
  : option (option Vehicle * store) :=
  match lines with
  | [] => None
  | line :: rest =>
      match in_row line num st with
      | Some r => Some r
      | None => in_rows rest num st
      end
  end.

Fixpoint in_floors (fs : list ParkingFloor) (num : string) (st : store)
  : option (option Vehicle * store) :=
  match fs with
  | [] => None
  | floor :: rest =>
      match in_rows (spots floor) num st with
      | Some r => Some r
      | None => in_floors rest num st
      end
  end.
End Unpark.

(** The loops return [Some r] at the [return v] inside them and [None]
    when they run to their end, where the method returns [None]. *)
Definition unpark_vehicle (lot : ParkingLot) (num : string) (st : store)
  : option Vehicle * store :=
  match Unpark.in_floors (floors lot) num st with
  | Some r => r
  | None => (None, st)
  end.

(** [str(n)] for an integer. *)
Definition str (n : Z) : string := NilZero.string_of_int (Z.to_int n).

Module Search.
Definition message (num : string) (f : ParkingFloor) (s : ParkingSpot)
  : string :=
  ("Vehicle " ++ num ++ " at Floor " ++ str (floor_num f)
     ++ " Spot(" ++ str (row s) ++ "," ++ str (col s) ++ ")")%string.

Fixpoint in_row (f : ParkingFloor) (line : list cell) (num : string)
  (st : store) : option string :=
  match line with
  | [] => None
  | None :: rest => in_row f rest num st
  | Some spot :: rest =>
      match vehicle (st spot) with
      | None => in_row f rest num st
      | Some w =>
          if String.eqb (number w) num then Some (message num f (st spot))
          else in_row f rest num st
      end
  end.

Fixpoint in_rows (f : ParkingFloor) (lines : list (list cell))
  (num : string) (st : store) : option string :=
  match lines with
  | [] => None
  | line :: rest =>
      match in_row f line num st with
      | Some r => Some r
      | None => in_rows f rest num st
      end
  end.

Fixpoint in_floors (fs : list ParkingFloor) (num : string) (st : store)
  : option string :=
  match fs with
  | [] => None
  | floor :: rest =>
      match in_rows floor (spots floor) num st with
      | Some r => Some r
      | None => in_floors rest num st
      end
  end.
End Search.

Definition search_vehicle (lot : ParkingLot) (num : string) (st : store)
  : option string :=
  Search.in_floors (floors lot) num st.

Module Count.
Fixpoint in_floors (fs : list ParkingFloor) (n : Z) (vtype : string)
  (st : store) : Z :=
  match fs with
  | [] => 0
  | floor :: rest =>
      if floor_num floor =? n then get_free_spots floor vtype st
      else in_floors rest n vtype st
  end.
End Count.

Definition count_free_spots (lot : ParkingLot) (n : Z) (vtype : string)
  (st : store) : Z :=
  Count.in_floors (floors lot) n vtype st.

(* ================================================================= *)
(** ** Operation sequences *)

Inductive Op : Type :=
| OPark (v : Vehicle)
| OUnpark (num : string)
| OSearch (num : string)
| OCount (n : Z) (vtype : string).

Inductive Answer : Type :=
| ASpot (r : option ref)
| AVehicle (v : option Vehicle)
| AText (s : option string)
| AInt (n : Z).

Definition step (lot : ParkingLot) (op : Op) (st : store) : Answer * store :=
  match op with
  | OPark v => let (r, st') := park_vehicle lot v st in (ASpot r, st')
  | OUnpark num => let (r, st') := unpark_vehicle lot num st in (AVehicle r, st')
  | OSearch num => (AText (search_vehicle lot num st), st)
  | OCount n vtype => (AInt (count_free_spots lot n vtype st), st)
  end.

Fixpoint exec (lot : ParkingLot) (ops : list Op) (st : store) : store :=
  match ops with
  | [] => st
  | op :: rest => exec lot rest (snd (step lot op st))
  end.

(* ================================================================= *)
(** ** Vocabulary of the properties *)

(** The grid cells of a list of floors in scan order: floors as listed,
    rows top to bottom, cells left to right. *)
Definition cells_of (fs : list ParkingFloor) : list cell :=
  flat_map (fun f => List.concat (spots f)) fs.

(** The spots held by the populated cells among [cs], in the same order;
    a spot registered in several cells is listed once per cell. *)
Definition populated (cs : list cell) : list ref :=
  flat_map (fun c => match c with Some r => [r] | None => [] end) cs.

(** The populated slots of a list of floors in scan order. *)
Definition slots_of (fs : list ParkingFloor) : list ref :=
  populated (cells_of fs).

(** [r] is a spot of the lot: some grid cell holds it. *)
Definition slot_of (lot : ParkingLot) (r : ref) : Prop :=
  In r (slots_of (floors lot)).

(** The spot is free and of type [t]. *)
Definition free_of_type (t : string) (st : store) (r : ref) : bool :=
  is_free r st && String.eqb (spot_type (st r)) t.

(** The spot is free and of the vehicle's type. *)
Definition fits (v : Vehicle) (st : store) (r : ref) : bool :=
  free_of_type (type v) st r.

(** The spot's occupant carries the number [num]. *)
Definition occupied_by (num : string) (st : store) (r : ref) : bool :=
  match vehicle (st r) with
  | None => false
  | Some w => String.eqb (number w) num
  end.

(** [x] is the first element of [l] that satisfies [p]. *)
Definition first_such {A : Type} (p : A -> bool) (l : list A) (x : A) : Prop :=
  exists pre post,
    l = pre ++ x :: post /\ p x = true /\ forall y, In y pre -> p y = false.

(** The store after [r.vehicle = o]. *)
Definition with_occupant (st : store) (r : ref) (o : option Vehicle) : store :=
  write st r (set_vehicle (st r) o).

(** The outcome of a scan that stops at slot [o] and parks [v] there, or
    finds no slot. *)
Definition award (v : Vehicle) (st : store) (o : option ref)
  : option ref * store :=
  match o with
  | Some r => (Some r, with_occupant st r (Some v))
  | None => (None, st)
  end.

(** The outcome of a scan that stops at slot [o] and empties it, or finds
    no slot. *)
Definition vacate (st : store) (o : option ref) : option Vehicle * store :=
  match o with
  | Some r => (vehicle (st r), with_occupant st r None)
  | None => (None, st)
  end.

(** The order in which a strategy visits the floors. *)
Definition scan_order (s : ParkingStrategy) (fs : list ParkingFloor)
  : list ParkingFloor :=
  match s with
  | FirstAvailable => fs
  | LowestFloor => sorted floor_num fs
  end.

(** The grid cells of a floor that hold a spot which is free and of type
    [t]; an empty cell is never one of them. *)
Definition free_cells (t : string) (st : store) (f : ParkingFloor) : list cell :=
  filter
    (fun c => match c with
              | Some r => free_of_type t st r
              | None => false
              end)
    (List.concat (spots f)).

(** Number of grid cells of the floor in which spot [r] is registered. *)
Definition registrations (f : ParkingFloor) (r : ref) : Z :=
  Z.of_nat (count_occ Nat.eq_dec (slots_of [f]) r).

(** Two stores that agree on every spot. *)
Definition same_store (st1 st2 : store) : Prop :=
  forall r, st1 r = st2 r.

(** Every spot of the lot is free. *)
Definition all_free (lot : ParkingLot) (st : store) : Prop :=
  forall r, slot_of lot r -> is_free r st = true.

(** [l'] is [l] reordered ascending by [key] with ties kept in the order
    they have in [l]: [l'] is ascending, and for each key value the
    elements of that key appear in [l'] exactly as they do in [l]. *)
Definition stable_ascending {A : Type} (key : A -> Z) (l l' : list A) : Prop :=
  StronglySorted (fun a b => key a <= key b) l' /\
  forall k, filter (fun x => key x =? k) l' = filter (fun x => key x =? k) l.

(** Along the run of [ops] from [st], spot [r] holds [v] in every state,
    up to a step, if there is one, that is [unpark_vehicle] for [v]'s
    number, returns [v] and leaves [r] free. *)
Fixpoint held_until_released (lot : ParkingLot) (r : ref) (v : Vehicle)
  (ops : list Op) (st : store) : Prop :=
  vehicle (st r) = Some v /\
  match ops with
  | [] => True
  | op :: rest =>
      held_until_released lot r v rest (snd (step lot op st)) \/
      (op = OUnpark (number v) /\
       fst (step lot op st) = AVehicle (Some v) /\
       is_free r (snd (step lot op st)) = true)
  end.

(** No two slots of the lot hold vehicles with the same number. *)
Definition one_slot_per_number (lot : ParkingLot) (st : store) : Prop :=
  forall r1 r2 w1 w2,
    slot_of lot r1 -> slot_of lot r2 ->
    vehicle (st r1) = Some w1 -> vehicle (st r2) = Some w2 ->
    number w1 = number w2 -> r1 = r2.

(** A caller that looks a number up with [search_vehicle] before parking a
    vehicle, and parks it only when the number is not in the lot. *)
Fixpoint disciplined (lot : ParkingLot) (ops : list Op) (st : store) : Prop :=
  match ops with
  | [] => True
  | op :: rest =>
      match op with
      | OPark v => search_vehicle lot (number v) st = None
      | _ => True
      end /\ disciplined lot rest (snd (step lot op st))
  end.

(* ================================================================= *)
(** ** The demo of the program's [__main__] *)

Module Demo.
Import VehicleType.

(** The spot objects, all empty: 0 to 3 are the four the demo creates,
    4 and 5 two further car spots. *)
Definition st0 : store :=
  fun r =>
    new_spot
      (match r with 1%nat => BIKE | 2%nat => TRUCK | _ => CAR end)
      (match r with 2%nat | 3%nat => 1 | _ => 0 end)
      (match r with 1%nat | 3%nat | 5%nat => 1 | _ => 0 end).

Definition floor0 : ParkingFloor :=
  mkFloor 0 [[Some 0%nat; Some 1%nat]; [Some 2%nat; Some 3%nat]].

Definition lot : ParkingLot :=
  add_floor (new_lot "MyLot" FirstAvailable) floor0.

Definition v1 : Vehicle := mkVehicle "KA01AB1234" CAR.
Definition v2 : Vehicle := mkVehicle "KA02XY5678" BIKE.
Definition v3 : Vehicle := mkVehicle "KA03ZZ9999" TRUCK.

(** The store once [v1] is parked, and one more car. *)
Definition st1 : store := snd (park_vehicle lot v1 st0).
Definition v4 : Vehicle := mkVehicle "KA04CD4321" CAR.

(** A second floor with a lower number, appended after [floor0]. *)
Definition basement : ParkingFloor :=
  mkFloor (-1) [[Some 4%nat; Some 5%nat]].

Definition two_floors : list ParkingFloor := [floor0; basement].
End Demo.

(* ================================================================= *)
(** ** Further vocabulary *)

(** The type, row and column a spot was built with. *)
Definition layout (s : ParkingSpot) : string * Z * Z :=
  (spot_type s, row s, col s).

(** Every vehicle on a slot of the lot has the type of its spot. *)
Definition well_typed (lot : ParkingLot) (st : store) : Prop :=
  forall r w,
    slot_of lot r -> vehicle (st r) = Some w -> type w = spot_type (st r).

(** Some slot of the floor is free and of the vehicle's type. *)
Definition floor_has_fit (v : Vehicle) (st : store) (f : ParkingFloor) : Prop :=
  exists r, In r (slots_of [f]) /\ fits v st r = true.

(** The cell at row [i], column [j] of a grid, counted from 0. *)
Definition cell_at (g : list (list cell)) (i j : nat) : option cell :=
  match nth_error g i with
  | Some line => nth_error line j
  | None => None
  end.

(** The floors are listed in ascending order of [floor_num]. *)
Definition ascending_floors (fs : list ParkingFloor) : Prop :=
  StronglySorted (fun a b => floor_num a <= floor_num b) fs.

(* ================================================================= *)
(** * Properties *)

(** ** The store *)

Lemma write_same (st : store) (r : ref) (s : ParkingSpot) :
  write st r s r = s.
Proof. unfold write. now rewrite Nat.eqb_refl. Qed.

Lemma write_other (st : store) (r r' : ref) (s : ParkingSpot) :
  r' <> r -> write st r s r' = st r'.
Proof.
  intros Hne. unfold write.
  destruct (Nat.eqb_spec r' r); [contradiction | reflexivity].
Qed.

Lemma with_occupant_same st r o :
  vehicle (with_occupant st r o r) = o.
Proof. unfold with_occupant. now rewrite write_same. Qed.

Lemma with_occupant_other st r o r' :
  r' <> r -> with_occupant st r o r' = st r'.
Proof. apply write_other. Qed.

Lemma with_occupant_layout st r o r' :
  spot_type (with_occupant st r o r') = spot_type (st r') /\
  row (with_occupant st r o r') = row (st r') /\
  col (with_occupant st r o r') = col (st r').
Proof.
  unfold with_occupant, write.
  destruct (Nat.eqb_spec r' r) as [-> | _]; simpl; auto.
Qed.

Lemma is_free_vehicle st r :
  is_free r st = true <-> vehicle (st r) = None.
Proof.
  unfold is_free. destruct (vehicle (st r)); split; congruence.
Qed.

Lemma is_free_false st r :
  is_free r st = false <-> exists w, vehicle (st r) = Some w.
Proof.
  unfold is_free. destruct (vehicle (st r)) as [w |]; split; try congruence.
  - eauto.
  - intros [w Hw]. discriminate.
Qed.

Lemma fits_true v st r :
  fits v st r = true <->
  vehicle (st r) = None /\ spot_type (st r) = type v.
Proof.
  unfold fits, free_of_type.
  rewrite andb_true_iff, is_free_vehicle, String.eqb_eq. reflexivity.
Qed.

Lemma occupied_by_true num st r :
  occupied_by num st r = true <->
  exists w, vehicle (st r) = Some w /\ number w = num.
Proof.
  unfold occupied_by. destruct (vehicle (st r)) as [w |].
  - rewrite String.eqb_eq. split.
    + intros <-. eauto.
    + intros [w' [Hw' Hn]]. congruence.
  - split; [discriminate | intros [w [Hw _]]; discriminate].
Qed.

(** ** [park] in terms of [fits] *)

Lemma park_fits self v st :
  park self v st =
  if fits v st self then (true, with_occupant st self (Some v)) else (false, st).
Proof. reflexivity. Qed.

(** ** First element of a list satisfying a test *)

Section Find.
Variable A : Type.
Variable p : A -> bool.

Lemma find_app (l1 l2 : list A) :
  find p (l1 ++ l2) =
  match find p l1 with
  | Some x => Some x
  | None => find p l2
  end.
Proof.
  induction l1 as [| a l1 IH]; simpl; [reflexivity |].
  destruct (p a); [reflexivity | exact IH].
Qed.

Lemma find_first_such (l : list A) (x : A) :
  find p l = Some x <-> first_such p l x.
Proof.
  unfold first_such. induction l as [| a l IH]; simpl.
  - split; [discriminate |].
    intros (pre & post & Heq & _). destruct pre; discriminate.
  - destruct (p a) eqn:Hpa.
    + split.
      * intros [= <-]. exists [], l. simpl. repeat split; auto.
        intros y [].
      * intros (pre & post & Heq & Hx & Hpre).
        destruct pre as [| b pre]; simpl in Heq; injection Heq as Hab Hl.
        -- now subst.
        -- subst b. rewrite (Hpre a (or_introl eq_refl)) in Hpa.
           discriminate.
    + rewrite IH. split.
      * intros (pre & post & -> & Hx & Hpre).
        exists (a :: pre), post. repeat split; auto.
        intros y [<- | Hy]; auto.
      * intros (pre & post & Heq & Hx & Hpre).
        destruct pre as [| b pre]; simpl in Heq; injection Heq as Hab Hl.
        -- congruence.
        -- exists pre, post. repeat split; auto.
           intros y Hy. apply Hpre. now right.
Qed.

Lemma find_none_iff (l : list A) :
  find p l = None <-> forall y, In y l -> p y = false.
Proof.
  split.
  - intros H y Hy. exact (find_none p l H y Hy).
  - intros H. induction l as [| a l IH]; simpl; [reflexivity |].
    rewrite (H a (or_introl eq_refl)). apply IH.
    intros y Hy. apply H. now right.
Qed.

Lemma find_ext_in (q : A -> bool) (l : list A) :
  (forall y, In y l -> p y = q y) -> find p l = find q l.
Proof.
  induction l as [| a l IH]; simpl; intros H; [reflexivity |].
  rewrite <- (H a (or_introl eq_refl)).
  destruct (p a); [reflexivity |].
  apply IH. intros y Hy. apply H. now right.
Qed.
End Find.

(** ** The scans as searches over the slots in scan order *)

Lemma populated_app (l1 l2 : list cell) :
  populated (l1 ++ l2) = populated l1 ++ populated l2.
Proof. unfold populated. apply flat_map_app. Qed.

Lemma cells_of_cons (f : ParkingFloor) (fs : list ParkingFloor) :
  cells_of (f :: fs) = List.concat (spots f) ++ cells_of fs.
Proof. reflexivity. Qed.

Lemma slots_of_cons (f : ParkingFloor) (fs : list ParkingFloor) :
  slots_of (f :: fs) = populated (List.concat (spots f)) ++ slots_of fs.
Proof. unfold slots_of. now rewrite cells_of_cons, populated_app. Qed.

Lemma slots_of_single (f : ParkingFloor) :
  slots_of [f] = populated (List.concat (spots f)).
Proof. rewrite slots_of_cons. apply app_nil_r. Qed.

Lemma in_slots_of (fs : list ParkingFloor) (r : ref) :
  In r (slots_of fs) <-> exists f, In f fs /\ In r (slots_of [f]).
Proof.
  induction fs as [| g fs IH].
  - simpl. split; [intros [] | intros (f & [] & _)].
  - rewrite slots_of_cons, in_app_iff, IH, <- slots_of_single. split.
    + intros [H | (f & Hf & H)].
      * exists g. split; [now left | exact H].
      * exists f. split; [now right | exact H].
    + intros (f & [<- | Hf] & H); [now left | right; eauto].
Qed.

Module FirstAvailableFacts.
Import FirstAvailableStrategy.

Lemma first_available_row line v st :
  in_row line v st = award v st (find (fits v st) (populated line)).
Proof.
  induction line as [| [spot |] rest IH]; simpl; auto.
  rewrite park_fits. destruct (fits v st spot); [reflexivity | exact IH].
Qed.

Lemma first_available_rows lines v st :
  in_rows lines v st =
  award v st (find (fits v st) (populated (List.concat lines))).
Proof.
  induction lines as [| line rest IH]; simpl; auto.
  rewrite first_available_row, populated_app, find_app.
  destruct (find (fits v st) (populated line)); simpl; [reflexivity | exact IH].
Qed.

Lemma first_available_search fs v st :
  find_spot fs v st = award v st (find (fits v st) (slots_of fs)).
Proof.
  induction fs as [| f rest IH]; simpl; auto.
  rewrite first_available_rows, slots_of_cons, find_app.
  destruct (find (fits v st) (populated (List.concat (spots f)))); simpl;
    [reflexivity | exact IH].
Qed.
End FirstAvailableFacts.

Module LowestFloorFacts.
Import LowestFloorStrategy.

Lemma lowest_floor_row line v st :
  in_row line v st = award v st (find (fits v st) (populated line)).
Proof.
  induction line as [| [spot |] rest IH]; simpl; auto.
  rewrite park_fits. destruct (fits v st spot); [reflexivity | exact IH].
Qed.

Lemma lowest_floor_rows lines v st :
  in_rows lines v st =
  award v st (find (fits v st) (populated (List.concat lines))).
Proof.
  induction lines as [| line rest IH]; simpl; auto.
  rewrite lowest_floor_row, populated_app, find_app.
  destruct (find (fits v st) (populated line)); simpl; [reflexivity | exact IH].
Qed.

Lemma lowest_floor_floors fs v st :
  in_floors fs v st = award v st (find (fits v st) (slots_of fs)).
Proof.
  induction fs as [| f rest IH]; simpl; auto.
  rewrite lowest_floor_rows, slots_of_cons, find_app.
  destruct (find (fits v st) (populated (List.concat (spots f)))); simpl;
    [reflexivity | exact IH].
Qed.

Lemma lowest_floor_search fs v st :
  find_spot fs v st =
  award v st (find (fits v st) (slots_of (sorted floor_num fs))).
Proof. apply lowest_floor_floors. Qed.
End LowestFloorFacts.

Module UnparkFacts.
Import Unpark.

Lemma unpark_row line num st :
  in_row line num st = option_map (fun r => unpark r st) (find (occupied_by num st) (populated line)).
Proof.
  induction line as [| [spot |] rest IH]; simpl; auto.
  unfold occupied_by at 1.
  destruct (vehicle (st spot)) as [w |]; [| exact IH].
  destruct (String.eqb (number w) num); [reflexivity | exact IH].
Qed.

Lemma unpark_rows lines num st :
  in_rows lines num st =
  option_map (fun r => unpark r st) (find (occupied_by num st) (populated (List.concat lines))).
Proof.
  induction lines as [| line rest IH]; simpl; auto.
  rewrite unpark_row, populated_app, find_app.
  destruct (find (occupied_by num st) (populated line)); simpl;
    [reflexivity | exact IH].
Qed.

Lemma unpark_floors fs num st :
  in_floors fs num st =
  option_map (fun r => unpark r st) (find (occupied_by num st) (slots_of fs)).
Proof.
  induction fs as [| f rest IH]; simpl; auto.
  rewrite unpark_rows, slots_of_cons, find_app.
  destruct (find (occupied_by num st) (populated (List.concat (spots f))));
    simpl; [reflexivity | exact IH].
Qed.
End UnparkFacts.

Lemma unpark_vehicle_vacate lot num st :
  unpark_vehicle lot num st =
  vacate st (find (occupied_by num st) (slots_of (floors lot))).
Proof.
  unfold unpark_vehicle. rewrite UnparkFacts.unpark_floors.
  destruct (find (occupied_by num st) (slots_of (floors lot))); reflexivity.
Qed.

Module SearchFacts.
Import Search.

Lemma search_row f line num st :
  in_row f line num st =
  option_map (fun r => message num f (st r))
    (find (occupied_by num st) (populated line)).
Proof.
  induction line as [| [spot |] rest IH]; simpl; auto.
  unfold occupied_by at 1.
  destruct (vehicle (st spot)) as [w |]; [| exact IH].
  destruct (String.eqb (number w) num); [reflexivity | exact IH].
Qed.

Lemma search_rows f lines num st :
  in_rows f lines num st =
  option_map (fun r => message num f (st r))
    (find (occupied_by num st) (populated (List.concat lines))).
Proof.
  induction lines as [| line rest IH]; simpl; auto.
  rewrite search_row, populated_app, find_app.
  destruct (find (occupied_by num st) (populated line)); simpl;
    [reflexivity | exact IH].
Qed.

Lemma search_floors_none fs num st :
  in_floors fs num st = None <->
  find (occupied_by num st) (slots_of fs) = None.
Proof.
  induction fs as [| f rest IH]; simpl; [tauto |].
  rewrite search_rows, slots_of_cons, find_app.
  destruct (find (occupied_by num st) (populated (List.concat (spots f))));
    simpl; [split; discriminate | exact IH].
Qed.
End SearchFacts.

Lemma search_vehicle_none lot num st :
  search_vehicle lot num st = None <->
  forall r, slot_of lot r -> occupied_by num st r = false.
Proof.
  unfold search_vehicle, slot_of.
  rewrite SearchFacts.search_floors_none. apply find_none_iff.
Qed.

(** ** [sorted] is ascending, stable, and the only such reordering *)

Section SortedFacts.
Variable A : Type.
Variable key : A -> Z.

Local Abbreviation by_key k := (fun x : A => key x =? k).
Local Abbreviation ascending := (fun a b : A => key a <= key b).

Lemma insert_sorted_in (x y : A) (l : list A) :
  In y (insert_sorted key x l) <-> y = x \/ In y l.
Proof.
  induction l as [| z l IH]; simpl.
  - intuition.
  - destruct (key x <=? key z); simpl; [intuition |].
    rewrite IH. intuition.
Qed.

Lemma sorted_in (y : A) (l : list A) :
  In y (sorted key l) <-> In y l.
Proof.
  induction l as [| x l IH]; simpl; [tauto |].
  rewrite insert_sorted_in, IH. intuition.
Qed.

Lemma insert_sorted_ascending (x : A) (l : list A) :
  StronglySorted ascending l ->
  StronglySorted ascending (insert_sorted key x l).
Proof.
  induction 1 as [| z l Hl IH Hz]; simpl.
  - constructor; constructor.
  - destruct (Z.leb_spec (key x) (key z)) as [Hle | Hgt].
    + constructor; [constructor; assumption |].
      constructor; [exact Hle |].
      rewrite Forall_forall in *. intros y Hy.
      specialize (Hz y Hy). simpl in Hz. lia.
    + constructor; [exact IH |].
      rewrite Forall_forall in *. intros y Hy.
      apply insert_sorted_in in Hy as [-> | Hy].
      * simpl. lia.
      * now apply Hz.
Qed.

Lemma sorted_ascending (l : list A) :
  StronglySorted ascending (sorted key l).
Proof.
  induction l as [| x l IH]; simpl.
  - constructor.
  - now apply insert_sorted_ascending.
Qed.

Lemma insert_sorted_filter (k : Z) (x : A) (l : list A) :
  filter (by_key k) (insert_sorted key x l) = filter (by_key k) (x :: l).
Proof.
  induction l as [| z l IH]; simpl; [reflexivity |].
  destruct (Z.leb_spec (key x) (key z)) as [Hle | Hgt]; [reflexivity |].
  simpl in *. rewrite IH.
  destruct (Z.eqb_spec (key x) k) as [Hx | Hx];
    destruct (Z.eqb_spec (key z) k) as [Hz | Hz]; try reflexivity.
  lia.
Qed.

Lemma sorted_filter (k : Z) (l : list A) :
  filter (by_key k) (sorted key l) = filter (by_key k) l.
Proof.
  induction l as [| x l IH]; simpl; [reflexivity |].
  rewrite insert_sorted_filter. simpl. now rewrite IH.
Qed.

Lemma sorted_stable_ascending (l : list A) :
  stable_ascending key l (sorted key l).
Proof.
  split; [apply sorted_ascending | intros k; apply sorted_filter].
Qed.

Lemma in_by_key (x : A) (l : list A) :
  In x l <-> In x (filter (by_key (key x)) l).
Proof.
  rewrite filter_In. simpl. rewrite Z.eqb_refl. tauto.
Qed.

Lemma ascending_same_classes (l1 l2 : list A) :
  StronglySorted ascending l1 ->
  StronglySorted ascending l2 ->
  (forall k, filter (by_key k) l1 = filter (by_key k) l2) ->
  l1 = l2.
Proof.
  intros H1. revert l2.
  induction H1 as [| a l1 Hl1 IH Ha]; intros l2 H2 Hcls.
  - destruct l2 as [| b l2]; [reflexivity |].
    specialize (Hcls (key b)). simpl in Hcls.
    rewrite Z.eqb_refl in Hcls. discriminate.
  - destruct H2 as [| b l2 Hl2 Hb].
    + specialize (Hcls (key a)). simpl in Hcls.
      rewrite Z.eqb_refl in Hcls. discriminate.
    + assert (Hkey : key a = key b).
      { assert (Hab : In a (b :: l2)).
        { apply (proj2 (in_by_key a (b :: l2))). rewrite <- Hcls.
          apply (proj1 (in_by_key a (a :: l1))). now left. }
        assert (Hba : In b (a :: l1)).
        { apply (proj2 (in_by_key b (a :: l1))). rewrite Hcls.
          apply (proj1 (in_by_key b (b :: l2))). now left. }
        rewrite Forall_forall in Ha, Hb. simpl in Ha, Hb.
        destruct Hab as [<- | Hab]; [reflexivity |].
        destruct Hba as [<- | Hba]; [reflexivity |].
        specialize (Ha b Hba). specialize (Hb a Hab). lia. }
      assert (Hhead := Hcls (key a)). simpl in Hhead.
      rewrite <- Hkey, Z.eqb_refl in Hhead. injection Hhead as <- Htl.
      f_equal. apply IH; [exact Hl2 |].
      intros k. specialize (Hcls k). simpl in Hcls.
      revert Hcls.
      destruct (Z.eqb_spec (key a) k) as [<- | _]; intros Hcls;
        [exact Htl | exact Hcls].
Qed.

Lemma insert_sorted_permutation (x : A) (l : list A) :
  Permutation (x :: l) (insert_sorted key x l).
Proof.
  induction l as [| y l IH]; simpl; [reflexivity |].
  destruct (key x <=? key y); [reflexivity |].
  rewrite perm_swap. now constructor.
Qed.

Lemma sorted_permutation (l : list A) :
  Permutation l (sorted key l).
Proof.
  induction l as [| x l IH]; simpl; [constructor |].
  rewrite <- insert_sorted_permutation. now constructor.
Qed.

Lemma stable_ascending_sorted (l l' : list A) :
  stable_ascending key l l' -> l' = sorted key l.
Proof.
  intros [Hasc Hcls]. apply ascending_same_classes.
  - exact Hasc.
  - apply sorted_ascending.
  - intros k. rewrite sorted_filter. apply Hcls.
Qed.
End SortedFacts.

(** ** Both strategies as one search *)

Lemma find_spot_as_search (s : ParkingStrategy) fs v st :
  find_spot s fs v st =
  award v st (find (fits v st) (slots_of (scan_order s fs))).
Proof.
  destruct s; simpl.
  - apply FirstAvailableFacts.first_available_search.
  - apply LowestFloorFacts.lowest_floor_search.
Qed.

Lemma in_slots_scan_order (s : ParkingStrategy) fs r :
  In r (slots_of (scan_order s fs)) <-> In r (slots_of fs).
Proof.
  destruct s; simpl; [tauto |].
  rewrite !in_slots_of. split; intros (f & Hf & Hr); exists f; split; auto.
  - now apply sorted_in in Hf.
  - now apply sorted_in.
Qed.

(** What a successful or failed [find_spot] did to the store. *)
Lemma find_spot_cases (s : ParkingStrategy) fs v st :
  (exists r,
      find_spot s fs v st = (Some r, with_occupant st r (Some v)) /\
      first_such (fits v st) (slots_of (scan_order s fs)) r) \/
  (find_spot s fs v st = (None, st) /\
   forall r, In r (slots_of fs) -> fits v st r = false).
Proof.
  rewrite find_spot_as_search.
  destruct (find (fits v st) (slots_of (scan_order s fs))) as [r |] eqn:Hfind.
  - left. exists r. split; [reflexivity |]. now apply find_first_such.
  - right. split; [reflexivity |].
    intros r Hr. apply (proj1 (find_none_iff _ _) Hfind).
    now apply in_slots_scan_order.
Qed.

Lemma first_such_in {A : Type} (p : A -> bool) (l : list A) (x : A) :
  first_such p l x -> In x l /\ p x = true.
Proof.
  intros (pre & post & -> & Hx & _). split; [| exact Hx].
  apply in_or_app. right. now left.
Qed.

(* ================================================================= *)
(** ** ParkingSpot.park *)

(** C2, as stated, fails: [park] answers with a bare [bool], so a refusal
    for an occupied spot and a refusal for a spot of another type are the
    same answer.  In the demo lot with [v1] parked, spot 0 is an occupied
    car spot and spot 1 a free bike spot; parking the car [v4] on either
    gives the same result. *)
Lemma park_refusals_not_distinct :
  is_free 0%nat Demo.st1 = false /\
  spot_type (Demo.st1 0%nat) = type Demo.v4 /\
  is_free 1%nat Demo.st1 = true /\
  spot_type (Demo.st1 1%nat) <> type Demo.v4 /\
  fst (park 0%nat Demo.v4 Demo.st1) = fst (park 1%nat Demo.v4 Demo.st1).
Proof.
  repeat split; try reflexivity. vm_compute. discriminate.
Qed.

(** C2, amended: [park] refuses with [False], leaving every spot as it
    was, when the spot is not free and also when the spot's type differs
    from the vehicle's, without telling the two causes apart; otherwise it
    makes the vehicle the occupant of that spot alone and answers [True].
    It never succeeds when the types differ. *)
Theorem park_outcome (self : ref) (v : Vehicle) (st : store) :
  (is_free self st = false -> park self v st = (false, st)) /\
  (spot_type (st self) <> type v -> park self v st = (false, st)) /\
  (is_free self st = true -> spot_type (st self) = type v ->
   exists st',
     park self v st = (true, st') /\
     vehicle (st' self) = Some v /\
     spot_type (st' self) = spot_type (st self) /\
     row (st' self) = row (st self) /\
     col (st' self) = col (st self) /\
     forall r, r <> self -> st' r = st r) /\
  (forall st', park self v st = (true, st') ->
               is_free self st = true /\ spot_type (st self) = type v).
Proof.
  rewrite park_fits. repeat split.
  - intros Hocc. unfold fits, free_of_type. now rewrite Hocc.
  - intros Hty. unfold fits, free_of_type.
    apply String.eqb_neq in Hty. rewrite Hty. now rewrite andb_false_r.
  - intros Hfree Hty. exists (with_occupant st self (Some v)).
    assert (Hf : fits v st self = true).
    { apply fits_true. split; [now apply is_free_vehicle | exact Hty]. }
    rewrite Hf. split; [reflexivity |].
    split; [apply with_occupant_same |].
    destruct (with_occupant_layout st self (Some v) self) as (? & ? & ?).
    repeat split; auto. intros r Hr. now apply with_occupant_other.
  - destruct (fits v st self) eqn:Hf; [| discriminate].
    apply fits_true in Hf. now apply is_free_vehicle.
  - destruct (fits v st self) eqn:Hf; [| discriminate].
    now apply fits_true in Hf.
Qed.

Lemma park_outcome_witness :
  is_free 0%nat Demo.st1 = false /\
  park 0%nat Demo.v4 Demo.st1 = (false, Demo.st1).
Proof.
  split; [reflexivity |].
  apply (proj1 (park_outcome 0%nat Demo.v4 Demo.st1)). reflexivity.
Defined.

(* ================================================================= *)
(** ** The strategies and park_vehicle *)

(** C3, as stated, fails: [find_spot] is where the spot is written.  On the
    demo lot spot 0 is empty beforehand and holds [v1] in the store that
    either strategy's [find_spot] leaves behind. *)
Lemma find_spot_writes_store :
  vehicle (Demo.st0 0%nat) = None /\
  vehicle
    (snd (FirstAvailableStrategy.find_spot (floors Demo.lot) Demo.v1 Demo.st0)
       0%nat) = Some Demo.v1 /\
  vehicle
    (snd (LowestFloorStrategy.find_spot (floors Demo.lot) Demo.v1 Demo.st0)
       0%nat) = Some Demo.v1.
Proof. repeat split. Qed.

(** C3, amended: a strategy's [find_spot] writes at most one spot, the one
    it returns, and that is the first slot in the strategy's scan order
    that is free and of the vehicle's type: the slot is a slot of the
    floors and afterwards holds the vehicle; its type and position, and
    every other spot, are as before.  [find_spot] returns [None] only when
    no slot of the floors is free and of the vehicle's type, and then the
    store is untouched.  [park_vehicle] adds nothing: its answer and its
    store are those of the strategy. *)
Theorem find_spot_effect (s : ParkingStrategy) (fs : list ParkingFloor)
  (v : Vehicle) (st : store) (res : option ref) (st' : store) :
  find_spot s fs v st = (res, st') ->
  match res with
  | Some r =>
      first_such (fits v st) (slots_of (scan_order s fs)) r /\
      In r (slots_of fs) /\
      is_free r st = true /\ spot_type (st r) = type v /\
      vehicle (st' r) = Some v /\
      (forall r', r' <> r -> st' r' = st r') /\
      (forall r', spot_type (st' r') = spot_type (st r') /\
                  row (st' r') = row (st r') /\
                  col (st' r') = col (st r'))
  | None =>
      st' = st /\
      forall r, In r (slots_of fs) -> fits v st r = false
  end /\
  forall lot,
    strategy lot = s -> floors lot = fs -> park_vehicle lot v st = (res, st').
Proof.
  intros Hrun. split.
  - destruct (find_spot_cases s fs v st) as [(r & Heq & Hfirst) | [Heq Hnone]];
      rewrite Heq in Hrun; injection Hrun as <- <-.
    + split; [exact Hfirst |].
      apply first_such_in in Hfirst as [Hin Hfit].
      apply fits_true in Hfit as [Hfree Hty].
      split; [now apply in_slots_scan_order in Hin |].
      split; [now apply is_free_vehicle |].
      split; [exact Hty |].
      split; [apply with_occupant_same |].
      split; [intros r' Hr'; now apply with_occupant_other |].
      intros r'. apply with_occupant_layout.
    + split; [reflexivity | exact Hnone].
  - intros lot <- <-. exact Hrun.
Qed.

Lemma find_spot_effect_witness :
  first_such (fits Demo.v1 Demo.st0)
    (slots_of (scan_order FirstAvailable (floors Demo.lot))) 0%nat /\
  In 0%nat (slots_of (floors Demo.lot)) /\
  vehicle (Demo.st1 0%nat) = Some Demo.v1 /\
  park_vehicle Demo.lot Demo.v1 Demo.st0 = (Some 0%nat, Demo.st1).
Proof.
  pose proof (find_spot_effect FirstAvailable (floors Demo.lot) Demo.v1
                Demo.st0 (res := Some 0%nat) (st' := Demo.st1) eq_refl)
    as [(Hfirst & Hin & _ & _ & Hv & _) Hlot].
  split; [exact Hfirst |]. split; [exact Hin |]. split; [exact Hv |].
  apply Hlot; reflexivity.
Defined.

(** C4: when every slot of the lot whose type is the vehicle's is occupied
    (in particular when there is none), [park_vehicle] returns [None] and
    the store is the one it was given. *)
Theorem park_vehicle_exhausted (lot : ParkingLot) (v : Vehicle) (st : store) :
  (forall r, slot_of lot r -> spot_type (st r) = type v ->
             is_free r st = false) ->
  park_vehicle lot v st = (None, st).
Proof.
  intros Hfull. unfold park_vehicle.
  destruct (find_spot_cases (strategy lot) (floors lot) v st)
    as [(r & _ & Hfirst) | [Heq _]]; [| exact Heq].
  apply first_such_in in Hfirst as [Hin Hfit].
  apply in_slots_scan_order in Hin.
  apply fits_true in Hfit as [Hfree Hty].
  apply is_free_vehicle in Hfree.
  rewrite (Hfull r Hin Hty) in Hfree. discriminate.
Qed.

Lemma park_vehicle_exhausted_witness :
  park_vehicle Demo.lot Demo.v2
    (snd (park_vehicle Demo.lot Demo.v2 Demo.st0)) =
  (None, snd (park_vehicle Demo.lot Demo.v2 Demo.st0)).
Proof.
  apply park_vehicle_exhausted.
  intros r Hr Hty. vm_compute in Hr.
  destruct Hr as [<- | [<- | [<- | [<- | []]]]];
    first [reflexivity | vm_compute in Hty; discriminate].
Defined.

(** C6: [FirstAvailableStrategy.find_spot] returns the first slot, in the
    order floors were listed and row by row within a floor, that is free
    and of the vehicle's type; it returns [None] exactly when no slot is;
    and from stores that agree on every spot it selects the same slot. *)
Theorem first_available_selects_first (fs : list ParkingFloor) (v : Vehicle)
  (st : store) :
  (forall r,
      fst (FirstAvailableStrategy.find_spot fs v st) = Some r <->
      first_such (fits v st) (slots_of fs) r) /\
  (fst (FirstAvailableStrategy.find_spot fs v st) = None <->
   forall r, In r (slots_of fs) -> fits v st r = false) /\
  (forall st2,
      same_store st st2 ->
      fst (FirstAvailableStrategy.find_spot fs v st2) =
      fst (FirstAvailableStrategy.find_spot fs v st)).
Proof.
  assert (Hfst : forall st0,
             fst (FirstAvailableStrategy.find_spot fs v st0) =
             find (fits v st0) (slots_of fs)).
  { intros st0. rewrite FirstAvailableFacts.first_available_search.
    now destruct (find (fits v st0) (slots_of fs)). }
  split; [| split].
  - intros r. rewrite Hfst. apply find_first_such.
  - rewrite Hfst. apply find_none_iff.
  - intros st2 Hsame. rewrite !Hfst. apply find_ext_in.
    intros r _. unfold fits, free_of_type, is_free. now rewrite (Hsame r).
Qed.

Lemma first_available_selects_first_witness :
  fst (FirstAvailableStrategy.find_spot (floors Demo.lot) Demo.v4 Demo.st1)
  = Some 3%nat.
Proof.
  apply (proj1 (first_available_selects_first (floors Demo.lot) Demo.v4
                  Demo.st1)).
  exists [0%nat; 1%nat; 2%nat], []. repeat split.
  intros y [<- | [<- | [<- | []]]]; reflexivity.
Defined.

(** C7: [LowestFloorStrategy.find_spot] does what
    [FirstAvailableStrategy.find_spot] does on the floors reordered
    ascending by [floor_num] with ties in insertion order: the same slot is
    returned and the same store is left.  Such a reordering always exists
    and holds the same floors. *)
Theorem lowest_floor_refines_first_available (fs : list ParkingFloor)
  (v : Vehicle) (st : store) :
  (exists fs', stable_ascending floor_num fs fs') /\
  forall fs',
    stable_ascending floor_num fs fs' ->
    Permutation fs fs' /\
    LowestFloorStrategy.find_spot fs v st =
    FirstAvailableStrategy.find_spot fs' v st.
Proof.
  split.
  - exists (sorted floor_num fs). apply sorted_stable_ascending.
  - intros fs' Hfs'. apply stable_ascending_sorted in Hfs'. subst fs'.
    split; [apply sorted_permutation |].
    rewrite LowestFloorFacts.lowest_floor_search.
    now rewrite FirstAvailableFacts.first_available_search.
Qed.

Lemma lowest_floor_refines_first_available_witness :
  stable_ascending floor_num Demo.two_floors [Demo.basement; Demo.floor0] /\
  LowestFloorStrategy.find_spot Demo.two_floors Demo.v1 Demo.st0 =
  FirstAvailableStrategy.find_spot [Demo.basement; Demo.floor0] Demo.v1
    Demo.st0.
Proof.
  assert (H : stable_ascending floor_num Demo.two_floors
                [Demo.basement; Demo.floor0]).
  { split.
    - repeat constructor. simpl. lia.
    - intros [| q | [q | q |]]; reflexivity. }
  split; [exact H |].
  apply (proj2 (lowest_floor_refines_first_available Demo.two_floors Demo.v1
                  Demo.st0)).
  exact H.
Defined.

(* ================================================================= *)
(** ** Free counts *)

Lemma sum_ones (p : cell -> bool) (l : list cell) (a : Z) :
  fold_left Z.add (flat_map (fun c => if p c then [1] else []) l) a =
  a + Z.of_nat (List.length (filter p l)).
Proof.
  revert a. induction l as [| c l IH]; intros a; simpl.
  - lia.
  - destruct (p c); simpl; rewrite IH; simpl List.length; lia.
Qed.

Lemma sum_ones_grid (p : cell -> bool) (lines : list (list cell)) (a : Z) :
  fold_left Z.add
    (flat_map (fun line => flat_map (fun c => if p c then [1] else []) line)
       lines) a =
  a + Z.of_nat (List.length (filter p (List.concat lines))).
Proof.
  revert a. induction lines as [| line lines IH]; intros a; simpl.
  - lia.
  - rewrite fold_left_app, sum_ones, IH, filter_app, length_app. lia.
Qed.

Lemma get_free_spots_cells f t st :
  get_free_spots f t st = Z.of_nat (List.length (free_cells t st f)).
Proof.
  unfold get_free_spots. rewrite sum_ones_grid. reflexivity.
Qed.

Lemma filter_populated (q : ref -> bool) (cs : list cell) :
  List.length
    (filter (fun c => match c with Some r => q r | None => false end) cs) =
  List.length (filter q (populated cs)).
Proof.
  induction cs as [| [r |] cs IH]; simpl; auto.
  destruct (q r); simpl; auto.
Qed.

Lemma get_free_spots_slots f t st :
  get_free_spots f t st =
  Z.of_nat (List.length (filter (free_of_type t st) (slots_of [f]))).
Proof.
  rewrite get_free_spots_cells, slots_of_single. unfold free_cells.
  now rewrite filter_populated.
Qed.

Lemma get_free_spots_same_store f t st1 st2 :
  same_store st1 st2 -> get_free_spots f t st1 = get_free_spots f t st2.
Proof.
  intros Hsame. rewrite !get_free_spots_slots. do 2 f_equal.
  apply filter_ext. intros r.
  unfold free_of_type, is_free. now rewrite (Hsame r).
Qed.

Lemma count_in_floors_same_store fs n t st1 st2 :
  same_store st1 st2 ->
  Count.in_floors fs n t st1 = Count.in_floors fs n t st2.
Proof.
  intros Hsame. induction fs as [| f fs IH]; simpl; [reflexivity |].
  destruct (floor_num f =? n); [now apply get_free_spots_same_store | exact IH].
Qed.

(** C8: [get_free_spots] is the number of grid cells of the floor that
    hold a spot which is free and of the asked type, an empty cell never
    being one of them; [count_free_spots] is that number for the floor with
    the asked [floor_num] (the first listed, should several carry it) and
    is 0 when no floor carries it. *)
Theorem free_count_correct (t : string) (st : store) :
  (forall f,
      get_free_spots f t st = Z.of_nat (List.length (free_cells t st f)) /\
      (forall c, In c (free_cells t st f) ->
                 exists r, c = Some r /\ In c (List.concat (spots f)) /\
                           is_free r st = true /\ spot_type (st r) = t) /\
      (forall r, In (Some r) (List.concat (spots f)) ->
                 is_free r st = true -> spot_type (st r) = t ->
                 In (Some r) (free_cells t st f))) /\
  (forall lot n pre f post,
      floors lot = pre ++ f :: post ->
      floor_num f = n ->
      (forall g, In g pre -> floor_num g <> n) ->
      count_free_spots lot n t st = Z.of_nat (List.length (free_cells t st f))) /\
  (forall lot n,
      (forall g, In g (floors lot) -> floor_num g <> n) ->
      count_free_spots lot n t st = 0).
Proof.
  split; [| split].
  - intros f. split; [apply get_free_spots_cells |]. split.
    + intros c Hc. apply filter_In in Hc as [Hin Hc].
      destruct c as [r |]; [| discriminate].
      exists r. unfold free_of_type in Hc.
      apply andb_true_iff in Hc as [Hfree Hty]. apply String.eqb_eq in Hty.
      auto.
    + intros r Hin Hfree Hty. apply filter_In. split; [exact Hin |].
      unfold free_of_type. rewrite Hfree. now apply String.eqb_eq in Hty as ->.
  - intros lot n pre f post Hfloors Hn Hpre. unfold count_free_spots.
    rewrite Hfloors. clear Hfloors.
    induction pre as [| g pre IH]; simpl.
    + apply Z.eqb_eq in Hn. rewrite Hn. apply get_free_spots_cells.
    + assert (Hg : floor_num g <> n) by (apply Hpre; now left).
      apply Z.eqb_neq in Hg. rewrite Hg. apply IH.
      intros h Hh. apply Hpre. now right.
  - intros lot n Hnone. unfold count_free_spots.
    induction (floors lot) as [| g fs IH]; simpl; [reflexivity |].
    assert (Hg : floor_num g <> n) by (apply Hnone; now left).
    apply Z.eqb_neq in Hg. rewrite Hg. apply IH.
    intros h Hh. apply Hnone. now right.
Qed.

Lemma free_count_correct_witness :
  count_free_spots Demo.lot 0 VehicleType.CAR Demo.st1 = 1 /\
  count_free_spots Demo.lot 7 VehicleType.CAR Demo.st1 = 0.
Proof.
  destruct (free_count_correct VehicleType.CAR Demo.st1) as (_ & Hhit & Hmiss).
  split.
  - apply (Hhit Demo.lot 0 [] Demo.floor0 []); [reflexivity | reflexivity |].
    intros g [].
  - apply Hmiss. intros g [<- | []]. simpl. lia.
Defined.

(* ================================================================= *)
(** ** unpark_vehicle *)

Lemma unpark_vehicle_cases lot num st :
  (exists r w,
      first_such (occupied_by num st) (slots_of (floors lot)) r /\
      vehicle (st r) = Some w /\ number w = num /\
      unpark_vehicle lot num st = (Some w, with_occupant st r None)) \/
  ((forall r, slot_of lot r -> occupied_by num st r = false) /\
   unpark_vehicle lot num st = (None, st)).
Proof.
  rewrite unpark_vehicle_vacate.
  destruct (find (occupied_by num st) (slots_of (floors lot))) as [r |] eqn:Hf.
  - left. apply find_first_such in Hf.
    destruct (first_such_in Hf) as [_ Hocc].
    apply occupied_by_true in Hocc as (w & Hw & Hnum).
    exists r, w. simpl. rewrite Hw. auto.
  - right. split; [| reflexivity].
    intros r Hr. exact (proj1 (find_none_iff _ _) Hf r Hr).
Qed.

(** C10: [unpark_vehicle] writes at most one spot.  When some slot's
    occupant carries the number, the first such slot in scan order is
    emptied and its vehicle returned, and every other spot is as before;
    when none does, [None] is returned and the store is the one given.
    In both cases the type, row and column of every spot are unchanged. *)
Theorem unpark_vehicle_frame (lot : ParkingLot) (num : string) (st : store) :
  (forall r,
      spot_type (snd (unpark_vehicle lot num st) r) = spot_type (st r) /\
      row (snd (unpark_vehicle lot num st) r) = row (st r) /\
      col (snd (unpark_vehicle lot num st) r) = col (st r)) /\
  ((exists r w,
       first_such (occupied_by num st) (slots_of (floors lot)) r /\
       vehicle (st r) = Some w /\ number w = num /\
       fst (unpark_vehicle lot num st) = Some w /\
       vehicle (snd (unpark_vehicle lot num st) r) = None /\
       forall r', r' <> r -> snd (unpark_vehicle lot num st) r' = st r') \/
   ((forall r, slot_of lot r -> occupied_by num st r = false) /\
    unpark_vehicle lot num st = (None, st))).
Proof.
  destruct (unpark_vehicle_cases lot num st)
    as [(r & w & Hfirst & Hw & Hnum & Heq) | [Hnone Heq]]; rewrite Heq; simpl.
  - split; [intros r'; apply with_occupant_layout |].
    left. exists r, w. repeat split; auto.
    + apply with_occupant_same.
    + intros r' Hr'. now apply with_occupant_other.
  - split; [auto |]. right. auto.
Qed.

(** On the demo lot with [v1] parked, unparking its number returns it. *)
Lemma unpark_vehicle_frame_witness :
  fst (unpark_vehicle Demo.lot (number Demo.v1) Demo.st1) = Some Demo.v1.
Proof.
  destruct (unpark_vehicle_frame Demo.lot (number Demo.v1) Demo.st1)
    as [_ [(r & w & _ & _ & _ & Hres & _) | [Hnone _]]].
  - reflexivity.
  - specialize (Hnone 0%nat (or_introl eq_refl)). discriminate.
Defined.

(* ================================================================= *)
(** ** Exclusive occupancy *)

Lemma park_vehicle_keeps_occupant lot v st r w :
  vehicle (st r) = Some w ->
  vehicle (snd (park_vehicle lot v st) r) = Some w.
Proof.
  intros Hw. unfold park_vehicle.
  destruct (find_spot_cases (strategy lot) (floors lot) v st)
    as [(r0 & Heq & Hfirst) | [Heq _]]; rewrite Heq; simpl; [| exact Hw].
  apply first_such_in in Hfirst as [_ Hfit].
  apply fits_true in Hfit as [Hfree _].
  rewrite with_occupant_other; [exact Hw |].
  intros ->. congruence.
Qed.

Lemma unpark_vehicle_keeps_or_frees lot num st r w :
  vehicle (st r) = Some w ->
  vehicle (snd (unpark_vehicle lot num st) r) = Some w \/
  (num = number w /\
   fst (unpark_vehicle lot num st) = Some w /\
   is_free r (snd (unpark_vehicle lot num st)) = true).
Proof.
  intros Hw.
  destruct (unpark_vehicle_cases lot num st)
    as [(r0 & w0 & _ & Hw0 & Hnum & Heq) | [_ Heq]]; rewrite Heq; simpl;
    [| now left].
  destruct (Nat.eq_dec r r0) as [-> | Hne].
  - right. rewrite Hw in Hw0. injection Hw0 as <-.
    repeat split; auto.
    apply is_free_vehicle. apply with_occupant_same.
  - left. now rewrite with_occupant_other.
Qed.

Lemma held_until_released_from lot r v ops :
  forall st, vehicle (st r) = Some v -> held_until_released lot r v ops st.
Proof.
  induction ops as [| op ops IH]; intros st Hv; simpl; [auto |].
  split; [exact Hv |].
  destruct op as [u | num | num | n t]; simpl.
  - left. apply IH.
    pose proof (park_vehicle_keeps_occupant lot u st r Hv) as Hkeep.
    destruct (park_vehicle lot u st). exact Hkeep.
  - pose proof (unpark_vehicle_keeps_or_frees lot num st r Hv) as Hstep.
    destruct (unpark_vehicle lot num st) as [res st']. simpl in *.
    destruct Hstep as [Hkeep | (-> & -> & Hfree)].
    + left. now apply IH.
    + right. auto.
  - left. now apply IH.
  - left. now apply IH.
Qed.

(** C1: a spot has room for one vehicle, and a park only ever succeeds on
    a spot that was free.  Once [park], called on the spot or through
    [park_vehicle], has put [v] on a spot, then through every later
    sequence of [park_vehicle], [unpark_vehicle], [search_vehicle] and
    [count_free_spots] calls the spot keeps holding [v], so [is_free] is
    false, until the [unpark_vehicle] call that returns [v] and empties
    the spot. *)
Theorem exclusive_occupancy (lot : ParkingLot) (v : Vehicle) (st : store)
  (r : ref) (st1 : store) :
  park r v st = (true, st1) \/ park_vehicle lot v st = (Some r, st1) ->
  is_free r st = true /\
  is_free r st1 = false /\
  (forall ops, held_until_released lot r v ops st1) /\
  (forall ops,
      ~ In (OUnpark (number v)) ops ->
      vehicle (exec lot ops st1 r) = Some v /\
      is_free r (exec lot ops st1) = false).
Proof.
  intros Hpark.
  assert (Hfree : is_free r st = true /\ vehicle (st1 r) = Some v).
  { destruct Hpark as [Hpark | Hpark].
    - rewrite park_fits in Hpark.
      destruct (fits v st r) eqn:Hfit; [| discriminate].
      injection Hpark as <-. apply fits_true in Hfit as [Hnone _].
      split; [now apply is_free_vehicle | apply with_occupant_same].
    - unfold park_vehicle in Hpark.
      destruct (find_spot_cases (strategy lot) (floors lot) v st)
        as [(r0 & Heq & Hfirst) | [Heq _]]; rewrite Heq in Hpark;
        [| discriminate].
      injection Hpark as <- <-.
      apply first_such_in in Hfirst as [_ Hfit].
      apply fits_true in Hfit as [Hnone _].
      split; [now apply is_free_vehicle | apply with_occupant_same]. }
  destruct Hfree as [Hfree Hv]. clear Hpark.
  split; [exact Hfree |].
  split; [apply is_free_false; eauto |].
  split; [intros ops; now apply held_until_released_from |].
  intros ops. revert Hv. generalize st1. clear st1.
  induction ops as [| op ops IH]; intros st1 Hv Hnot; simpl.
  - split; [exact Hv | apply is_free_false; eauto].
  - apply IH; [| intros Hin; apply Hnot; now right].
    destruct op as [u | num | num | n t]; simpl; try exact Hv.
    + pose proof (park_vehicle_keeps_occupant lot u st1 r Hv) as Hkeep.
      destruct (park_vehicle lot u st1). exact Hkeep.
    + pose proof (unpark_vehicle_keeps_or_frees lot num st1 r Hv) as Hstep.
      destruct (unpark_vehicle lot num st1) as [res st']. simpl in *.
      destruct Hstep as [Hkeep | (-> & _)]; [exact Hkeep |].
      exfalso. apply Hnot. now left.
Qed.

Lemma exclusive_occupancy_witness :
  is_free 0%nat Demo.st0 = true /\
  is_free 0%nat Demo.st1 = false /\
  is_free 0%nat
    (exec Demo.lot [OPark Demo.v4; OUnpark (number Demo.v4); OPark Demo.v2]
       Demo.st1) = false.
Proof.
  destruct (exclusive_occupancy Demo.lot Demo.v1 Demo.st0
              (r := 0%nat) (st1 := Demo.st1) (or_intror eq_refl))
    as (H0 & H1 & _ & Hrun).
  split; [exact H0 |]. split; [exact H1 |].
  apply Hrun. intros [H | [H | [H | []]]]; discriminate.
Defined.

(* ================================================================= *)
(** ** Round trip *)

Lemma park_then_empty_restores st r v :
  vehicle (st r) = None ->
  same_store (with_occupant (with_occupant st r (Some v)) r None) st.
Proof.
  intros Hnone r'. unfold with_occupant, write.
  destruct (Nat.eqb_spec r' r) as [-> | Hne].
  - rewrite Nat.eqb_refl. unfold set_vehicle. simpl.
    rewrite <- Hnone. now destruct (st r).
  - reflexivity.
Qed.

Lemma freed_slot_counts (p q : ref -> bool) (r : ref) (l : list ref) :
  p r = true -> q r = false ->
  (forall r', r' <> r -> p r' = q r') ->
  List.length (filter p l) =
  (List.length (filter q l) + count_occ Nat.eq_dec l r)%nat.
Proof.
  intros Hp Hq Hother. induction l as [| x l IH]; simpl; [reflexivity |].
  destruct (Nat.eq_dec x r) as [-> | Hne].
  - rewrite Hp, Hq. simpl. lia.
  - rewrite (Hother x Hne). destruct (q x); simpl; lia.
Qed.

(** C5, as stated, fails in its last part: after the round trip the free
    count is what it was before the allocation, not one more.  On the demo
    lot the count of free car spots on floor 0 is 2 before [v1] is parked
    and 2 again once it has been parked and unparked. *)
Lemma round_trip_count_not_incremented :
  (forall r, slot_of Demo.lot r ->
             occupied_by (number Demo.v1) Demo.st0 r = false) /\
  park_vehicle Demo.lot Demo.v1 Demo.st0 = (Some 0%nat, Demo.st1) /\
  fst (unpark_vehicle Demo.lot (number Demo.v1) Demo.st1) = Some Demo.v1 /\
  count_free_spots Demo.lot 0 (type Demo.v1)
    (snd (unpark_vehicle Demo.lot (number Demo.v1) Demo.st1)) <>
  count_free_spots Demo.lot 0 (type Demo.v1) Demo.st0 + 1.
Proof.
  split; [| split; [| split]].
  - intros r _. reflexivity.
  - reflexivity.
  - reflexivity.
  - vm_compute. discriminate.
Qed.

(** C5, amended: for a vehicle [u] whose number no slot of the lot holds,
    if [park_vehicle] succeeds then [unpark_vehicle] for [u]'s number
    returns [u], the slot that was assigned is free again, and every spot
    is as it was before the allocation; so every free count equals its
    value before the allocation, and on each floor the free count for
    [u]'s type is the count after the allocation plus the number of the
    floor's cells that hold the assigned slot. *)
Theorem round_trip_restores (lot : ParkingLot) (u : Vehicle) (st : store)
  (r : ref) (st1 : store) :
  (forall r', slot_of lot r' -> occupied_by (number u) st r' = false) ->
  park_vehicle lot u st = (Some r, st1) ->
  exists st2,
    unpark_vehicle lot (number u) st1 = (Some u, st2) /\
    is_free r st2 = true /\
    same_store st2 st /\
    (forall f t, get_free_spots f t st2 = get_free_spots f t st) /\
    (forall n t, count_free_spots lot n t st2 = count_free_spots lot n t st) /\
    (forall f, get_free_spots f (type u) st2 =
               get_free_spots f (type u) st1 + registrations f r).
Proof.
  intros Hfresh Hpark. unfold park_vehicle in Hpark.
  destruct (find_spot_cases (strategy lot) (floors lot) u st)
    as [(r0 & Heq & Hfirst) | [Heq _]]; rewrite Heq in Hpark;
    [| discriminate].
  injection Hpark as <- <-.
  apply first_such_in in Hfirst as [Hin Hfit].
  apply in_slots_scan_order in Hin.
  pose proof Hfit as Hfit'. apply fits_true in Hfit' as [Hnone Hty].
  set (st1 := with_occupant st r0 (Some u)).
  assert (Hocc : forall r', In r' (slots_of (floors lot)) ->
                            occupied_by (number u) st1 r' = Nat.eqb r' r0).
  { intros r' Hr'. unfold occupied_by, st1.
    destruct (Nat.eqb_spec r' r0) as [-> | Hne].
    - rewrite with_occupant_same. apply String.eqb_refl.
    - rewrite with_occupant_other by exact Hne. apply (Hfresh r' Hr'). }
  assert (Hfind : find (occupied_by (number u) st1) (slots_of (floors lot))
                  = Some r0).
  { destruct (find (occupied_by (number u) st1) (slots_of (floors lot)))
      as [x |] eqn:Hf.
    - apply find_some in Hf as [Hx Hox].
      rewrite (Hocc x Hx) in Hox. apply Nat.eqb_eq in Hox. now subst.
    - pose proof (find_none _ _ Hf r0 Hin) as Hcontra.
      rewrite (Hocc r0 Hin), Nat.eqb_refl in Hcontra. discriminate. }
  exists (with_occupant st1 r0 None).
  assert (Hsame : same_store (with_occupant st1 r0 None) st).
  { now apply park_then_empty_restores. }
  split.
  { rewrite unpark_vehicle_vacate, Hfind. simpl.
    unfold st1 at 1. now rewrite with_occupant_same. }
  split; [apply is_free_vehicle, with_occupant_same |].
  split; [exact Hsame |].
  split; [intros f t; now apply get_free_spots_same_store |].
  split; [intros n t; now apply count_in_floors_same_store |].
  intros f. rewrite (get_free_spots_same_store f (type u) Hsame).
  rewrite !get_free_spots_slots. unfold registrations.
  rewrite <- Nat2Z.inj_add. f_equal.
  apply freed_slot_counts.
  - exact Hfit.
  - unfold free_of_type, is_free, st1. now rewrite with_occupant_same.
  - intros r' Hne. unfold free_of_type, is_free, st1.
    now rewrite with_occupant_other.
Qed.

Lemma round_trip_restores_witness :
  exists st2,
    unpark_vehicle Demo.lot (number Demo.v1) Demo.st1 = (Some Demo.v1, st2) /\
    is_free 0%nat st2 = true /\
    count_free_spots Demo.lot 0 VehicleType.CAR st2 =
    count_free_spots Demo.lot 0 VehicleType.CAR Demo.st0.
Proof.
  destruct (round_trip_restores Demo.lot Demo.v1 Demo.st0
              (r := 0%nat) (st1 := Demo.st1))
    as (st2 & Hun & Hfree & _ & _ & Hcount & _).
  - intros r _. reflexivity.
  - reflexivity.
  - exists st2. split; [exact Hun |]. split; [exact Hfree |]. apply Hcount.
Defined.

(* ================================================================= *)
(** ** One slot per vehicle *)

(** C9, as stated, fails: [park_vehicle] does not look whether the vehicle
    is parked already.  From the demo lot with every spot free, parking
    [v1] twice leaves it on the two distinct car spots 0 and 3. *)
Lemma same_vehicle_on_two_slots :
  all_free Demo.lot Demo.st0 /\
  slot_of Demo.lot 0%nat /\ slot_of Demo.lot 3%nat /\ 0%nat <> 3%nat /\
  vehicle (exec Demo.lot [OPark Demo.v1; OPark Demo.v1] Demo.st0 0%nat)
  = Some Demo.v1 /\
  vehicle (exec Demo.lot [OPark Demo.v1; OPark Demo.v1] Demo.st0 3%nat)
  = Some Demo.v1.
Proof.
  split.
  - intros r _. reflexivity.
  - repeat split; try (vm_compute; tauto). discriminate.
Qed.

Lemma one_slot_after_park lot v st :
  search_vehicle lot (number v) st = None ->
  one_slot_per_number lot st ->
  one_slot_per_number lot (snd (park_vehicle lot v st)).
Proof.
  intros Hsearch Hinv. unfold park_vehicle.
  destruct (find_spot_cases (strategy lot) (floors lot) v st)
    as [(r & Heq & _) | [Heq _]]; rewrite Heq; simpl; [| exact Hinv].
  pose proof (proj1 (search_vehicle_none lot (number v) st) Hsearch) as Hnone.
  assert (Hclash : forall r' w,
             slot_of lot r' -> r' <> r ->
             vehicle (st r') = Some w -> number w <> number v).
  { intros r' w Hr' _ Hw Hnum. specialize (Hnone r' Hr').
    unfold occupied_by in Hnone. rewrite Hw in Hnone.
    apply String.eqb_neq in Hnone. contradiction. }
  intros r1 r2 w1 w2 Hr1 Hr2 Hw1 Hw2 Hnum.
  destruct (Nat.eq_dec r1 r) as [-> | Hne1];
    destruct (Nat.eq_dec r2 r) as [-> | Hne2]; [reflexivity | | |].
  - rewrite with_occupant_same in Hw1. injection Hw1 as <-.
    rewrite with_occupant_other in Hw2 by exact Hne2.
    exfalso. exact (Hclash r2 w2 Hr2 Hne2 Hw2 (eq_sym Hnum)).
  - rewrite with_occupant_same in Hw2. injection Hw2 as <-.
    rewrite with_occupant_other in Hw1 by exact Hne1.
    exfalso. exact (Hclash r1 w1 Hr1 Hne1 Hw1 Hnum).
  - rewrite with_occupant_other in Hw1 by exact Hne1.
    rewrite with_occupant_other in Hw2 by exact Hne2.
    exact (Hinv r1 r2 w1 w2 Hr1 Hr2 Hw1 Hw2 Hnum).
Qed.

Lemma one_slot_after_unpark lot num st :
  one_slot_per_number lot st ->
  one_slot_per_number lot (snd (unpark_vehicle lot num st)).
Proof.
  intros Hinv.
  destruct (unpark_vehicle_cases lot num st)
    as [(r & w & _ & _ & _ & Heq) | [_ Heq]]; rewrite Heq; simpl;
    [| exact Hinv].
  intros r1 r2 w1 w2 Hr1 Hr2 Hw1 Hw2 Hnum.
  destruct (Nat.eq_dec r1 r) as [-> | Hne1].
  { rewrite with_occupant_same in Hw1. discriminate. }
  destruct (Nat.eq_dec r2 r) as [-> | Hne2].
  { rewrite with_occupant_same in Hw2. discriminate. }
  rewrite with_occupant_other in Hw1 by exact Hne1.
  rewrite with_occupant_other in Hw2 by exact Hne2.
  exact (Hinv r1 r2 w1 w2 Hr1 Hr2 Hw1 Hw2 Hnum).
Qed.

Lemma one_slot_exec lot ops :
  forall st,
    one_slot_per_number lot st -> disciplined lot ops st ->
    one_slot_per_number lot (exec lot ops st).
Proof.
  induction ops as [| op ops IH]; intros st Hinv Hdis; simpl; [exact Hinv |].
  destruct Hdis as [Hop Hrest]. apply IH; [| exact Hrest].
  destruct op as [v | num | num | n t]; simpl; try exact Hinv.
  - pose proof (@one_slot_after_park lot v st Hop Hinv) as Hstep.
    destruct (park_vehicle lot v st). exact Hstep.
  - pose proof (@one_slot_after_unpark lot num st Hinv) as Hstep.
    destruct (unpark_vehicle lot num st). exact Hstep.
Qed.

(** C9, amended: start from a lot whose spots are all free and let the
    caller park a vehicle only when [search_vehicle] does not find its
    number in the lot.  Then in every state reached no two distinct slots
    hold vehicles with the same number, and a vehicle on a slot stays on
    it, through whatever calls follow, until the [unpark_vehicle] call that
    returns it and frees the slot.  Parking, from such a state, a vehicle
    whose number is not in the lot either is refused, the store staying as
    it is, or binds it to exactly one slot, the one returned: no other
    slot holds its number, it stays on that slot until released, and while
    the caller keeps to the rule no two slots ever hold the same number. *)
Theorem single_binding_disciplined (lot : ParkingLot) (ops : list Op)
  (st0 : store) :
  all_free lot st0 ->
  disciplined lot ops st0 ->
  one_slot_per_number lot (exec lot ops st0) /\
  (forall r w,
      vehicle (exec lot ops st0 r) = Some w ->
      forall ops', held_until_released lot r w ops' (exec lot ops st0)) /\
  forall v res st',
    search_vehicle lot (number v) (exec lot ops st0) = None ->
    park_vehicle lot v (exec lot ops st0) = (res, st') ->
    match res with
    | None => st' = exec lot ops st0
    | Some r =>
        slot_of lot r /\ vehicle (st' r) = Some v /\
        (forall r', slot_of lot r' ->
                    (occupied_by (number v) st' r' = true <-> r' = r)) /\
        (forall ops', held_until_released lot r v ops' st') /\
        (forall ops', disciplined lot ops' st' ->
                      one_slot_per_number lot (exec lot ops' st'))
    end.
Proof.
  intros Hfree Hdis.
  assert (Hinv : one_slot_per_number lot (exec lot ops st0)).
  { apply one_slot_exec; [| exact Hdis].
    intros r1 r2 w1 w2 Hr1 _ Hw1 _ _.
    apply Hfree, is_free_vehicle in Hr1. congruence. }
  split; [exact Hinv |].
  split; [intros r w Hw ops'; now apply held_until_released_from |].
  revert Hinv. generalize (exec lot ops st0).
  intros st Hinv v res st' Hsearch Hpark.
  pose proof (@one_slot_after_park lot v st Hsearch Hinv) as Hinv'.
  rewrite Hpark in Hinv'. simpl in Hinv'.
  pose proof (proj1 (search_vehicle_none lot (number v) st) Hsearch)
    as Hnone.
  unfold park_vehicle in Hpark.
  destruct (find_spot_cases (strategy lot) (floors lot) v st)
    as [(r & Heq & Hfirst) | [Heq _]]; rewrite Heq in Hpark;
    injection Hpark as <- <-; [| reflexivity].
  apply first_such_in in Hfirst as [Hin _].
  apply in_slots_scan_order in Hin.
  split; [exact Hin |]. split; [apply with_occupant_same |].
  split; [| split].
  - intros r' Hr'. unfold occupied_by.
    destruct (Nat.eq_dec r' r) as [-> | Hne].
    + rewrite with_occupant_same, String.eqb_refl. tauto.
    + rewrite with_occupant_other by exact Hne.
      specialize (Hnone r' Hr'). unfold occupied_by in Hnone.
      rewrite Hnone. split; [discriminate | contradiction].
  - intros ops'. apply held_until_released_from. apply with_occupant_same.
  - intros ops' Hdis'. now apply one_slot_exec.
Qed.

Lemma single_binding_disciplined_witness :
  one_slot_per_number Demo.lot
    (exec Demo.lot
       [OPark Demo.v1; OPark Demo.v4; OUnpark (number Demo.v1); OPark Demo.v1]
       Demo.st0) /\
  held_until_released Demo.lot 3%nat Demo.v4
    [OPark Demo.v2; OUnpark (number Demo.v4)]
    (exec Demo.lot
       [OPark Demo.v1; OPark Demo.v4; OUnpark (number Demo.v1); OPark Demo.v1]
       Demo.st0).
Proof.
  destruct (@single_binding_disciplined Demo.lot
              [OPark Demo.v1; OPark Demo.v4; OUnpark (number Demo.v1);
               OPark Demo.v1] Demo.st0) as (Hone & Hheld & _).
  - intros r _. reflexivity.
  - repeat split.
  - split; [exact Hone |]. apply Hheld. reflexivity.
Defined.

(* ================================================================= *)
(** ** The demo, run *)

(** [floor0] is what [ParkingFloor(0, 2, 2)] becomes after the demo's four
    [add_spot] calls. *)
Example demo_floor_built :
  match add_spot (new_floor 0 2 2) 0%nat 0 0 with
  | Some f1 =>
      match add_spot f1 1%nat 0 1 with
      | Some f2 =>
          match add_spot f2 2%nat 1 0 with
          | Some f3 => add_spot f3 3%nat 1 1
          | None => None
          end
      | None => None
      end
  | None => None
  end = Some Demo.floor0.
Proof. reflexivity. Qed.

(** Out-of-range positions make [add_spot] raise; negative ones wrap. *)
Example add_spot_positions :
  add_spot (new_floor 0 2 2) 0%nat 2 0 = None /\
  add_spot (new_floor 0 2 2) 0%nat 0 (-3) = None /\
  option_map spots (add_spot (new_floor 0 2 2) 0%nat (-1) (-1)) =
  Some [[None; None]; [None; Some 0%nat]].
Proof. repeat split. Qed.

(** Cars go to spot (0,0), then (1,1), then nowhere; after the first car
    leaves one car spot is free, and the second car is found at (1,1). *)
Example demo_scenario :
  let car3 := mkVehicle "KA05EF0003" VehicleType.CAR in
  let (a1, s1) := park_vehicle Demo.lot Demo.v1 Demo.st0 in
  let (a2, s2) := park_vehicle Demo.lot Demo.v4 s1 in
  let (a3, s3) := park_vehicle Demo.lot car3 s2 in
  let (a4, s4) := unpark_vehicle Demo.lot (number Demo.v1) s3 in
  a1 = Some 0%nat /\ a2 = Some 3%nat /\ a3 = None /\ a4 = Some Demo.v1 /\
  count_free_spots Demo.lot 0 VehicleType.CAR s3 = 0 /\
  count_free_spots Demo.lot 0 VehicleType.CAR s4 = 1 /\
  search_vehicle Demo.lot (number Demo.v4) s4 =
  Some "Vehicle KA04CD4321 at Floor 0 Spot(1,1)"%string /\
  search_vehicle Demo.lot (number Demo.v1) s4 = None.
Proof. vm_compute. repeat split. Qed.

(** With the basement listed after floor 0, the first-available strategy
    parks on floor 0 and the lowest-floor strategy in the basement. *)
Example demo_strategies_differ :
  fst (find_spot FirstAvailable Demo.two_floors Demo.v1 Demo.st0) = Some 0%nat /\
  fst (find_spot LowestFloor Demo.two_floors Demo.v1 Demo.st0) = Some 4%nat.
Proof. split; reflexivity. Qed.

(* ================================================================= *)
(** * Further properties of the operations *)

(** ** Searching floor by floor *)

Lemma find_slots_cons (p : ref -> bool) f fs :
  find p (slots_of (f :: fs)) =
  match find p (slots_of [f]) with
  | Some x => Some x
  | None => find p (slots_of fs)
  end.
Proof. now rewrite slots_of_cons, find_app, slots_of_single. Qed.

(** The first slot satisfying a test lies on the first floor that has one. *)
Lemma first_such_floor (p : ref -> bool) fs r :
  first_such p (slots_of fs) r ->
  exists pre f post,
    fs = pre ++ f :: post /\
    (forall y, In y (slots_of pre) -> p y = false) /\
    first_such p (slots_of [f]) r.
Proof.
  intros H. apply find_first_such in H. revert H.
  induction fs as [| g fs IH]; [discriminate |].
  rewrite find_slots_cons.
  destruct (find p (slots_of [g])) as [x |] eqn:Hg.
  - intros [= ->]. exists [], g, fs. split; [reflexivity |].
    split; [intros y [] | now apply find_first_such].
  - intros H. destruct (IH H) as (pre & f & post & -> & Hpre & Hf).
    exists (g :: pre), f, post. split; [reflexivity |].
    split; [| exact Hf].
    intros y Hy. rewrite slots_of_cons, <- slots_of_single in Hy.
    apply in_app_or in Hy as [Hy | Hy]; [| now apply Hpre].
    exact (proj1 (find_none_iff _ _) Hg y Hy).
Qed.

Lemma search_floors_skip pre fs num st :
  (forall y, In y (slots_of pre) -> occupied_by num st y = false) ->
  Search.in_floors (pre ++ fs) num st = Search.in_floors fs num st.
Proof.
  induction pre as [| g pre IH]; intros Hpre; [reflexivity |].
  simpl. rewrite SearchFacts.search_rows, <- slots_of_single.
  assert (Hg : find (occupied_by num st) (slots_of [g]) = None).
  { apply find_none_iff. intros y Hy. apply Hpre.
    rewrite slots_of_cons, <- slots_of_single. apply in_or_app. now left. }
  rewrite Hg. simpl. apply IH. intros y Hy. apply Hpre.
  rewrite slots_of_cons. apply in_or_app. now right.
Qed.

(** X1: [search_vehicle] returns [None] exactly when no slot of the lot
    holds a vehicle with the number.  Otherwise it reports the first such
    slot in scan order: the message carries the [floor_num] of the first
    floor that has one and the [row] and [col] stored in that spot. *)
Theorem search_vehicle_reports_first (lot : ParkingLot) (num : string)
  (st : store) :
  (search_vehicle lot num st = None <->
   forall r, slot_of lot r -> occupied_by num st r = false) /\
  (forall pre f post r,
      floors lot = pre ++ f :: post ->
      (forall y, In y (slots_of pre) -> occupied_by num st y = false) ->
      first_such (occupied_by num st) (slots_of [f]) r ->
      search_vehicle lot num st = Some (Search.message num f (st r))) /\
  (forall msg,
      search_vehicle lot num st = Some msg ->
      exists pre f post r,
        floors lot = pre ++ f :: post /\
        (forall y, In y (slots_of pre) -> occupied_by num st y = false) /\
        first_such (occupied_by num st) (slots_of [f]) r /\
        msg = Search.message num f (st r)).
Proof.
  assert (Hhit : forall pre f post r,
             floors lot = pre ++ f :: post ->
             (forall y, In y (slots_of pre) -> occupied_by num st y = false) ->
             first_such (occupied_by num st) (slots_of [f]) r ->
             search_vehicle lot num st = Some (Search.message num f (st r))).
  { intros pre f post r Hfloors Hpre Hfirst. unfold search_vehicle.
    rewrite Hfloors, search_floors_skip by exact Hpre. simpl.
    rewrite SearchFacts.search_rows, <- slots_of_single.
    apply find_first_such in Hfirst. now rewrite Hfirst. }
  split; [apply search_vehicle_none |]. split; [exact Hhit |].
  intros msg Hmsg.
  destruct (find (occupied_by num st) (slots_of (floors lot))) as [r |] eqn:Hf.
  - apply find_first_such, first_such_floor in Hf.
    destruct Hf as (pre & f & post & Hfloors & Hpre & Hfirst).
    exists pre, f, post, r. repeat split; auto.
    rewrite (Hhit pre f post r Hfloors Hpre Hfirst) in Hmsg. congruence.
  - apply SearchFacts.search_floors_none in Hf.
    unfold search_vehicle in Hmsg. congruence.
Qed.

(** X2: [search_vehicle] and [unpark_vehicle] agree on whether the number
    is in the lot: one returns [None] exactly when the other does, and a
    vehicle that [unpark_vehicle] returns carries the number asked for. *)
Theorem search_agrees_with_unpark (lot : ParkingLot) (num : string)
  (st : store) :
  (search_vehicle lot num st = None <->
   fst (unpark_vehicle lot num st) = None) /\
  (forall w, fst (unpark_vehicle lot num st) = Some w -> number w = num).
Proof.
  rewrite search_vehicle_none.
  destruct (unpark_vehicle_cases lot num st)
    as [(r & w & Hfirst & Hw & Hnum & Heq) | [Hnone Heq]]; rewrite Heq; simpl.
  - split; [| intros w' [= <-]; exact Hnum].
    split; [| discriminate]. intros Hnone.
    apply first_such_in in Hfirst as [Hin Hocc].
    rewrite (Hnone r Hin) in Hocc. discriminate.
  - split; [tauto | discriminate].
Qed.

(** X3: under either strategy [park_vehicle] succeeds exactly when some
    slot of the lot is free and of the vehicle's type, and the slot it
    returns is such a slot of the lot. *)
Theorem park_vehicle_succeeds_iff_fit (lot : ParkingLot) (v : Vehicle)
  (st : store) :
  ((exists r, slot_of lot r /\ fits v st r = true) <->
   exists r, fst (park_vehicle lot v st) = Some r) /\
  (forall r, fst (park_vehicle lot v st) = Some r ->
             slot_of lot r /\ fits v st r = true).
Proof.
  unfold park_vehicle.
  destruct (find_spot_cases (strategy lot) (floors lot) v st)
    as [(r & Heq & Hfirst) | [Heq Hnone]]; rewrite Heq; simpl.
  - apply first_such_in in Hfirst as [Hin Hfit].
    apply in_slots_scan_order in Hin.
    split.
    + split; intros _; exists r; auto.
    + intros r' [= <-]. auto.
  - split.
    + split; [| intros [r Hr]; discriminate].
      intros (r & Hr & Hfit). rewrite (Hnone r Hr) in Hfit. discriminate.
    + intros r Hr. discriminate.
Qed.

Lemma park_vehicle_succeeds_iff_fit_witness :
  slot_of Demo.lot 3%nat /\ fits Demo.v4 Demo.st1 3%nat = true.
Proof.
  apply (proj2 (park_vehicle_succeeds_iff_fit Demo.lot Demo.v4 Demo.st1)).
  reflexivity.
Defined.

(** ** The two strategies compared *)

Lemma ascending_sorted_fixed fs :
  ascending_floors fs -> sorted floor_num fs = fs.
Proof.
  intros Hasc. symmetry. apply stable_ascending_sorted.
  split; [exact Hasc | reflexivity].
Qed.

(** X4: when the floors are listed in ascending order of [floor_num], the
    two strategies do the same thing: same slot, same store. *)
Theorem strategies_agree_on_ascending_floors (fs : list ParkingFloor)
  (v : Vehicle) (st : store) :
  ascending_floors fs ->
  LowestFloorStrategy.find_spot fs v st =
  FirstAvailableStrategy.find_spot fs v st.
Proof.
  intros Hasc.
  rewrite LowestFloorFacts.lowest_floor_search.
  rewrite FirstAvailableFacts.first_available_search.
  now rewrite ascending_sorted_fixed.
Qed.

Lemma strategies_agree_on_ascending_floors_witness :
  LowestFloorStrategy.find_spot [Demo.basement; Demo.floor0] Demo.v1 Demo.st0 =
  FirstAvailableStrategy.find_spot [Demo.basement; Demo.floor0] Demo.v1
    Demo.st0.
Proof.
  apply strategies_agree_on_ascending_floors.
  repeat constructor. simpl. lia.
Defined.

Lemma ascending_after (R : ParkingFloor -> ParkingFloor -> Prop) pre f post :
  StronglySorted R (pre ++ f :: post) -> Forall (R f) post.
Proof.
  induction pre as [| g pre IH]; simpl; intros H; inversion H; subst; auto.
Qed.

(** X5: the slot [LowestFloorStrategy.find_spot] returns lies on a floor
    whose [floor_num] is the least among the floors that have a free slot
    of the vehicle's type, and is the first such slot of that floor. *)
Theorem lowest_floor_picks_lowest (fs : list ParkingFloor) (v : Vehicle)
  (st : store) (r : ref) :
  fst (LowestFloorStrategy.find_spot fs v st) = Some r ->
  exists f,
    In f fs /\
    first_such (fits v st) (slots_of [f]) r /\
    forall g, In g fs -> floor_has_fit v st g -> floor_num f <= floor_num g.
Proof.
  rewrite LowestFloorFacts.lowest_floor_search.
  destruct (find (fits v st) (slots_of (sorted floor_num fs))) as [x |] eqn:Hf;
    simpl; [| discriminate].
  intros [= ->].
  apply find_first_such, first_such_floor in Hf.
  destruct Hf as (pre & f & post & Hsorted & Hpre & Hfirst).
  exists f. split.
  { apply (sorted_in floor_num). rewrite Hsorted.
    apply in_or_app. right. now left. }
  split; [exact Hfirst |].
  intros g Hg (y & Hy & Hfit).
  apply (sorted_in floor_num) in Hg. rewrite Hsorted in Hg.
  apply in_app_or in Hg as [Hg | [<- | Hg]].
  - assert (Hin : In y (slots_of pre)) by (apply in_slots_of; eauto).
    rewrite (Hpre y Hin) in Hfit. discriminate.
  - lia.
  - pose proof (sorted_ascending floor_num fs) as Hasc.
    rewrite Hsorted in Hasc. apply ascending_after in Hasc.
    rewrite Forall_forall in Hasc. exact (Hasc g Hg).
Qed.

Lemma lowest_floor_picks_lowest_witness :
  exists f,
    In f Demo.two_floors /\
    first_such (fits Demo.v1 Demo.st0) (slots_of [f]) 4%nat /\
    forall g, In g Demo.two_floors -> floor_has_fit Demo.v1 Demo.st0 g ->
              floor_num f <= floor_num g.
Proof.
  apply lowest_floor_picks_lowest. reflexivity.
Defined.

(** ** Free counts under parking and unparking *)

Lemma unchanged_slot_counts (p q : ref -> bool) (r : ref) (l : list ref) :
  p r = q r ->
  (forall r', r' <> r -> p r' = q r') ->
  List.length (filter p l) = List.length (filter q l).
Proof.
  intros Hr Hother. f_equal. apply filter_ext. intros x.
  destruct (Nat.eq_dec x r) as [-> | Hne]; auto.
Qed.

(** X6: a successful [park_vehicle] lowers the free count of the vehicle's
    type, on every floor, by the number of that floor's cells in which the
    assigned spot is registered, and leaves the free counts of every other
    type as they were. *)
Theorem park_vehicle_free_count (lot : ParkingLot) (v : Vehicle) (st : store)
  (r : ref) (st' : store) :
  park_vehicle lot v st = (Some r, st') ->
  forall f t,
    get_free_spots f t st' =
    get_free_spots f t st -
    (if String.eqb (type v) t then registrations f r else 0).
Proof.
  intros Hpark f t. unfold park_vehicle in Hpark.
  destruct (find_spot_cases (strategy lot) (floors lot) v st)
    as [(r0 & Heq & Hfirst) | [Heq _]]; rewrite Heq in Hpark;
    [| discriminate].
  injection Hpark as <- <-.
  apply first_such_in in Hfirst as [_ Hfit].
  pose proof Hfit as Hfit'. apply fits_true in Hfit' as [Hnone Hty].
  assert (Hocc : free_of_type t (with_occupant st r0 (Some v)) r0 = false).
  { unfold free_of_type, is_free. now rewrite with_occupant_same. }
  assert (Hother : forall r', r' <> r0 ->
             free_of_type t st r' =
             free_of_type t (with_occupant st r0 (Some v)) r').
  { intros r' Hne. unfold free_of_type, is_free.
    now rewrite with_occupant_other. }
  rewrite !get_free_spots_slots. unfold registrations.
  destruct (String.eqb_spec (type v) t) as [<- | Hne].
  - rewrite (@freed_slot_counts (free_of_type (type v) st)
               (free_of_type (type v) (with_occupant st r0 (Some v))) r0
               (slots_of [f]) Hfit Hocc Hother).
    lia.
  - assert (Hbefore : free_of_type t st r0 = false).
    { unfold free_of_type. rewrite Hty.
      apply String.eqb_neq in Hne. rewrite Hne. apply andb_false_r. }
    rewrite (unchanged_slot_counts (free_of_type t st)
               (free_of_type t (with_occupant st r0 (Some v))) (r := r0)).
    + lia.
    + congruence.
    + exact Hother.
Qed.

Lemma park_vehicle_free_count_witness :
  get_free_spots Demo.floor0 VehicleType.CAR Demo.st1 =
  get_free_spots Demo.floor0 VehicleType.CAR Demo.st0 -
  (if String.eqb (type Demo.v1) VehicleType.CAR
   then registrations Demo.floor0 0%nat else 0).
Proof.
  apply (park_vehicle_free_count Demo.lot Demo.v1 Demo.st0 (r := 0%nat)).
  reflexivity.
Defined.

(** X7: a successful [unpark_vehicle] raises the free count of the freed
    spot's type, on every floor, by the number of that floor's cells in
    which the spot is registered, and leaves the free counts of every
    other type as they were. *)
Theorem unpark_vehicle_free_count (lot : ParkingLot) (num : string)
  (st : store) (w : Vehicle) :
  fst (unpark_vehicle lot num st) = Some w ->
  exists r,
    slot_of lot r /\ vehicle (st r) = Some w /\
    forall f t,
      get_free_spots f t (snd (unpark_vehicle lot num st)) =
      get_free_spots f t st +
      (if String.eqb (spot_type (st r)) t then registrations f r else 0).
Proof.
  destruct (unpark_vehicle_cases lot num st)
    as [(r & w0 & Hfirst & Hw & _ & Heq) | [_ Heq]]; rewrite Heq; simpl;
    [| discriminate].
  intros [= <-]. exists r.
  apply first_such_in in Hfirst as [Hin _].
  split; [exact Hin |]. split; [exact Hw |].
  intros f t.
  assert (Hocc : free_of_type t st r = false).
  { unfold free_of_type, is_free. now rewrite Hw. }
  assert (Hother : forall r', r' <> r ->
             free_of_type t (with_occupant st r None) r' =
             free_of_type t st r').
  { intros r' Hne. unfold free_of_type, is_free.
    now rewrite with_occupant_other. }
  assert (Hafter : free_of_type t (with_occupant st r None) r =
                   String.eqb (spot_type (st r)) t).
  { unfold free_of_type, is_free. rewrite with_occupant_same.
    now destruct (with_occupant_layout st r None r) as (-> & _). }
  rewrite !get_free_spots_slots. unfold registrations.
  destruct (String.eqb (spot_type (st r)) t).
  - rewrite (freed_slot_counts _ _ (slots_of [f]) Hafter Hocc Hother). lia.
  - rewrite (unchanged_slot_counts
               (free_of_type t (with_occupant st r None))
               (free_of_type t st) (r := r)).
    + lia.
    + congruence.
    + exact Hother.
Qed.

Lemma unpark_vehicle_free_count_witness :
  exists r,
    slot_of Demo.lot r /\ vehicle (Demo.st1 r) = Some Demo.v1 /\
    forall f t,
      get_free_spots f t
        (snd (unpark_vehicle Demo.lot (number Demo.v1) Demo.st1)) =
      get_free_spots f t Demo.st1 +
      (if String.eqb (spot_type (Demo.st1 r)) t then registrations f r else 0).
Proof.
  apply unpark_vehicle_free_count. reflexivity.
Defined.

(** ** What a run of operations never touches *)

Lemma step_changes_one_slot lot op st :
  same_store (snd (step lot op st)) st \/
  exists r o, slot_of lot r /\ snd (step lot op st) = with_occupant st r o.
Proof.
  destruct op as [v | num | num | n t]; simpl;
    try (left; intros r; reflexivity).
  - unfold park_vehicle.
    destruct (find_spot_cases (strategy lot) (floors lot) v st)
      as [(r & Heq & Hfirst) | [Heq _]]; rewrite Heq; simpl.
    + right. exists r, (Some v). split; [| reflexivity].
      apply first_such_in in Hfirst as [Hin _].
      now apply in_slots_scan_order in Hin.
    + left. intros r. reflexivity.
  - destruct (unpark_vehicle_cases lot num st)
      as [(r & w & Hfirst & _ & _ & Heq) | [_ Heq]]; rewrite Heq; simpl.
    + right. exists r, None. split; [| reflexivity].
      now apply first_such_in in Hfirst as [Hin _].
    + left. intros r. reflexivity.
Qed.

Lemma layout_with_occupant st r o r' :
  layout (with_occupant st r o r') = layout (st r').
Proof.
  unfold layout.
  destruct (with_occupant_layout st r o r') as (-> & -> & ->). reflexivity.
Qed.

(** X8: through any sequence of [park_vehicle], [unpark_vehicle],
    [search_vehicle] and [count_free_spots] calls every spot keeps its
    type, row and column, and a spot that is registered in no cell of the
    lot is not changed at all. *)
Theorem run_keeps_layout_and_outsiders (lot : ParkingLot) (ops : list Op)
  (st : store) (r : ref) :
  layout (exec lot ops st r) = layout (st r) /\
  (~ slot_of lot r -> exec lot ops st r = st r).
Proof.
  revert st. induction ops as [| op ops IH]; intros st; simpl; [auto |].
  destruct (IH (snd (step lot op st))) as [Hlay Hout].
  destruct (step_changes_one_slot lot op st) as [Hsame | (r0 & o & Hr0 & Heq)].
  - split.
    + rewrite Hlay. now rewrite (Hsame r).
    + intros Hnot. rewrite (Hout Hnot). apply Hsame.
  - split.
    + rewrite Hlay, Heq. apply layout_with_occupant.
    + intros Hnot. rewrite (Hout Hnot), Heq.
      apply with_occupant_other. intros ->. contradiction.
Qed.

(** ** Occupants have the type of their spot *)

Lemma step_keeps_well_typed lot op st :
  well_typed lot st -> well_typed lot (snd (step lot op st)).
Proof.
  intros Hwt. destruct op as [v | num | num | n t]; simpl; try exact Hwt.
  - unfold park_vehicle.
    destruct (find_spot_cases (strategy lot) (floors lot) v st)
      as [(r & Heq & Hfirst) | [Heq _]]; rewrite Heq; simpl; [| exact Hwt].
    apply first_such_in in Hfirst as [_ Hfit].
    apply fits_true in Hfit as [_ Hty].
    intros r' w Hr' Hw.
    destruct (with_occupant_layout st r (Some v) r') as (-> & _).
    destruct (Nat.eq_dec r' r) as [-> | Hne].
    + rewrite with_occupant_same in Hw. injection Hw as <-. now symmetry.
    + rewrite with_occupant_other in Hw by exact Hne. now apply Hwt.
  - destruct (unpark_vehicle_cases lot num st)
      as [(r & w0 & _ & _ & _ & Heq) | [_ Heq]]; rewrite Heq; simpl;
      [| exact Hwt].
    intros r' w Hr' Hw.
    destruct (with_occupant_layout st r None r') as (-> & _).
    destruct (Nat.eq_dec r' r) as [-> | Hne].
    + rewrite with_occupant_same in Hw. discriminate.
    + rewrite with_occupant_other in Hw by exact Hne. now apply Hwt.
Qed.

(** X9: if every vehicle on a slot of the lot has the type of its spot,
    as is the case when the lot is empty, this stays so through any
    sequence of [park_vehicle], [unpark_vehicle], [search_vehicle] and
    [count_free_spots] calls. *)
Theorem run_keeps_well_typed (lot : ParkingLot) (ops : list Op) (st : store) :
  well_typed lot st -> well_typed lot (exec lot ops st).
Proof.
  revert st. induction ops as [| op ops IH]; intros st Hwt; simpl;
    [exact Hwt |].
  apply IH. now apply step_keeps_well_typed.
Qed.

Lemma run_keeps_well_typed_witness :
  well_typed Demo.lot
    (exec Demo.lot
       [OPark Demo.v1; OPark Demo.v2; OUnpark (number Demo.v1); OPark Demo.v3]
       Demo.st0).
Proof.
  apply run_keeps_well_typed. intros r w _ Hw. discriminate Hw.
Defined.

(** ** ParkingSpot.unpark *)

(** X10: [unpark] returns the spot's occupant and leaves the spot free,
    with its type and position and every other spot as they were; on a
    spot that is already free it returns [None] and changes nothing.
    After it, [park] of a vehicle of the spot's type succeeds; and
    [unpark] after a successful [park] gives the vehicle back and puts
    every spot back as it was. *)
Theorem unpark_outcome (self : ref) (st : store) :
  fst (unpark self st) = vehicle (st self) /\
  is_free self (snd (unpark self st)) = true /\
  layout (snd (unpark self st) self) = layout (st self) /\
  (forall r, r <> self -> snd (unpark self st) r = st r) /\
  (is_free self st = true ->
   fst (unpark self st) = None /\ same_store (snd (unpark self st)) st) /\
  (forall v, spot_type (st self) = type v ->
             fst (park self v (snd (unpark self st))) = true) /\
  (forall v st1, park self v st = (true, st1) ->
                 fst (unpark self st1) = Some v /\
                 same_store (snd (unpark self st1)) st).
Proof.
  change (snd (unpark self st)) with (with_occupant st self None).
  change (fst (unpark self st)) with (vehicle (st self)).
  split; [reflexivity |].
  split; [apply is_free_vehicle, with_occupant_same |].
  split; [apply layout_with_occupant |].
  split; [intros r Hr; now apply with_occupant_other |].
  split; [| split].
  - intros Hfree. apply is_free_vehicle in Hfree. split; [exact Hfree |].
    intros r. unfold with_occupant, write.
    destruct (Nat.eqb_spec r self) as [-> | _]; [| reflexivity].
    unfold set_vehicle. rewrite <- Hfree. now destruct (st self).
  - intros v Hty. rewrite park_fits.
    assert (Hfit : fits v (with_occupant st self None) self = true).
    { apply fits_true. rewrite with_occupant_same. split; [reflexivity |].
      now destruct (with_occupant_layout st self None self) as (-> & _). }
    now rewrite Hfit.
  - intros v st1 Hpark. rewrite park_fits in Hpark.
    destruct (fits v st self) eqn:Hfit; [| discriminate].
    injection Hpark as <-. apply fits_true in Hfit as [Hnone _].
    split; [apply with_occupant_same |].
    now apply park_then_empty_restores.
Qed.

(** ** A number leaves and enters the lot *)

(** X15: when no two slots of the lot hold the same number,
    [unpark_vehicle] for a number leaves no slot holding it: a following
    [search_vehicle] for the number returns [None], and a second
    [unpark_vehicle] returns [None] and changes nothing. *)
Theorem unpark_vehicle_removes_number (lot : ParkingLot) (num : string)
  (st : store) :
  one_slot_per_number lot st ->
  search_vehicle lot num (snd (unpark_vehicle lot num st)) = None /\
  unpark_vehicle lot num (snd (unpark_vehicle lot num st)) =
  (None, snd (unpark_vehicle lot num st)).
Proof.
  intros Hone.
  assert (Hgone : forall y, slot_of lot y ->
             occupied_by num (snd (unpark_vehicle lot num st)) y = false).
  { destruct (unpark_vehicle_cases lot num st)
      as [(r & w & Hfirst & Hw & Hnum & Heq) | [Hnone Heq]]; rewrite Heq;
      simpl; [| exact Hnone].
    apply first_such_in in Hfirst as [Hr _].
    intros y Hy. unfold occupied_by.
    destruct (Nat.eq_dec y r) as [-> | Hne].
    - now rewrite with_occupant_same.
    - rewrite with_occupant_other by exact Hne.
      destruct (vehicle (st y)) as [w' |] eqn:Hw'; [| reflexivity].
      apply String.eqb_neq. intros Hnum'. apply Hne.
      apply (Hone y r w' w Hy Hr Hw' Hw). congruence. }
  split; [now apply search_vehicle_none |].
  rewrite unpark_vehicle_vacate.
  now rewrite (proj2 (find_none_iff _ _) Hgone).
Qed.

Lemma unpark_vehicle_removes_number_witness :
  search_vehicle Demo.lot (number Demo.v1)
    (snd (unpark_vehicle Demo.lot (number Demo.v1) Demo.st1)) = None.
Proof.
  apply (unpark_vehicle_removes_number (lot := Demo.lot)).
  intros r1 r2 w1 w2 Hr1 Hr2 Hw1 Hw2 _.
  vm_compute in Hr1, Hr2.
  destruct Hr1 as [<- | [<- | [<- | [<- | []]]]]; try discriminate Hw1;
    destruct Hr2 as [<- | [<- | [<- | [<- | []]]]]; try discriminate Hw2;
    reflexivity.
Defined.

(** X16: a vehicle that [park_vehicle] has parked is in the lot: right
    after, [search_vehicle] for its number finds a vehicle and
    [unpark_vehicle] for its number returns a vehicle with that number. *)
Theorem parked_vehicle_is_found (lot : ParkingLot) (v : Vehicle) (st : store)
  (r : ref) (st' : store) :
  park_vehicle lot v st = (Some r, st') ->
  search_vehicle lot (number v) st' <> None /\
  exists w, fst (unpark_vehicle lot (number v) st') = Some w /\
            number w = number v.
Proof.
  intros Hpark. unfold park_vehicle in Hpark.
  destruct (find_spot_cases (strategy lot) (floors lot) v st)
    as [(r0 & Heq & Hfirst) | [Heq _]]; rewrite Heq in Hpark;
    [| discriminate].
  injection Hpark as <- <-.
  apply first_such_in in Hfirst as [Hin _].
  apply in_slots_scan_order in Hin.
  assert (Hocc : occupied_by (number v) (with_occupant st r0 (Some v)) r0
                 = true).
  { unfold occupied_by. rewrite with_occupant_same. apply String.eqb_refl. }
  split.
  - intros Hnone.
    rewrite (proj1 (search_vehicle_none _ _ _) Hnone r0 Hin) in Hocc.
    discriminate.
  - destruct (unpark_vehicle_cases lot (number v)
                (with_occupant st r0 (Some v)))
      as [(r1 & w & _ & _ & Hnum & Heq1) | [Hnone _]].
    + exists w. now rewrite Heq1.
    + rewrite (Hnone r0 Hin) in Hocc. discriminate.
Qed.

Lemma parked_vehicle_is_found_witness :
  search_vehicle Demo.lot (number Demo.v1) Demo.st1 <> None.
Proof.
  apply (parked_vehicle_is_found Demo.lot Demo.v1 Demo.st0
           (r := 0%nat) (st' := Demo.st1) eq_refl).
Defined.

(** ** Building floors *)

Lemma py_index_in_range {A : Type} (l : list A) (i : Z) :
  - Z.of_nat (List.length l) <= i < Z.of_nat (List.length l) ->
  py_index l i = Some (Z.to_nat (i mod Z.of_nat (List.length l))) /\
  (Z.to_nat (i mod Z.of_nat (List.length l)) < List.length l)%nat.
Proof.
  intros Hi. unfold py_index. set (n := Z.of_nat (List.length l)) in *.
  assert (Hmod : 0 <= i mod n < n) by (apply Z.mod_pos_bound; lia).
  split; [| lia].
  destruct (Z.leb_spec 0 i) as [Hpos | Hneg]; simpl.
  - destruct (Z.ltb_spec i n) as [_ | Hge]; [| lia].
    now rewrite Z.mod_small by lia.
  - destruct (Z.leb_spec (- n) i) as [_ | Hlt]; [| lia].
    destruct (Z.ltb_spec i 0) as [_ | Hge]; [| lia]. simpl.
    rewrite <- (Z.mod_add i 1 n) by lia.
    rewrite Z.mod_small by lia. do 2 f_equal. lia.
Qed.

Lemma py_index_out_of_range {A : Type} (l : list A) (i : Z) :
  i < - Z.of_nat (List.length l) \/ Z.of_nat (List.length l) <= i ->
  py_index l i = None.
Proof.
  intros Hi. unfold py_index.
  destruct (Z.leb_spec 0 i); destruct (Z.ltb_spec i (Z.of_nat (List.length l)));
    destruct (Z.leb_spec (- Z.of_nat (List.length l)) i);
    destruct (Z.ltb_spec i 0); simpl; try reflexivity; lia.
Qed.

Lemma length_set_nth {A : Type} (l : list A) (i : nat) (x : A) :
  List.length (set_nth l i x) = List.length l.
Proof.
  revert i. induction l as [| a l IH]; intros [| i]; simpl; auto.
Qed.

Lemma nth_error_set_nth_same {A : Type} (l : list A) (i : nat) (x : A) :
  (i < List.length l)%nat -> nth_error (set_nth l i x) i = Some x.
Proof.
  revert i. induction l as [| a l IH]; intros [| i]; simpl; intros Hi;
    try lia; auto.
  apply IH. lia.
Qed.

Lemma nth_error_set_nth_other {A : Type} (l : list A) (i i' : nat) (x : A) :
  i' <> i -> nth_error (set_nth l i x) i' = nth_error l i'.
Proof.
  revert i i'. induction l as [| a l IH]; intros [| i] [| i'] Hne; simpl;
    auto; try contradiction.
Qed.

Lemma widths_set_nth (g : list (list cell)) (i : nat) (line : list cell) :
  List.length line = List.length (nth i g []) ->
  map (@List.length cell) (set_nth g i line) = map (@List.length cell) g.
Proof.
  revert i. induction g as [| a g IH]; intros [| i]; simpl; intros Hlen; auto.
  - now rewrite Hlen.
  - now rewrite IH.
Qed.

(** X11: [add_spot] fails (the index error of the assignment) when the row
    is outside [-rows, rows) or the column is outside the same range for
    that row's length.  Otherwise a negative index counts from the end,
    the addressed cell holds the spot afterwards, whatever it held before,
    and the floor number, the grid's dimensions and every other cell are
    unchanged. *)
Theorem add_spot_outcome (f : ParkingFloor) (spot : ref) (r c : Z) :
  let nrows := Z.of_nat (List.length (spots f)) in
  (r < - nrows \/ nrows <= r -> add_spot f spot r c = None) /\
  (- nrows <= r < nrows ->
   let i := Z.to_nat (r mod nrows) in
   let ncols := Z.of_nat (List.length (nth i (spots f) [])) in
   (c < - ncols \/ ncols <= c -> add_spot f spot r c = None) /\
   (- ncols <= c < ncols ->
    let j := Z.to_nat (c mod ncols) in
    exists f',
      add_spot f spot r c = Some f' /\
      floor_num f' = floor_num f /\
      map (@List.length cell) (spots f') = map (@List.length cell) (spots f) /\
      cell_at (spots f') i j = Some (Some spot) /\
      forall i' j', i' <> i \/ j' <> j ->
                    cell_at (spots f') i' j' = cell_at (spots f) i' j')).
Proof.
  intros nrows. split.
  - intros Hr. unfold add_spot.
    now rewrite (@py_index_out_of_range _ (spots f) r Hr).
  - intros Hr i ncols.
    destruct (@py_index_in_range _ (spots f) r Hr) as [Hrow Hi].
    fold nrows in Hrow, Hi. fold i in Hrow, Hi.
    split.
    + intros Hc. unfold add_spot. rewrite Hrow. cbv zeta.
      now rewrite (@py_index_out_of_range _ (nth i (spots f) []) c Hc).
    + intros Hc j.
      destruct (@py_index_in_range _ (nth i (spots f) []) c Hc) as [Hcol Hj].
      fold ncols in Hcol, Hj. fold j in Hcol, Hj.
      unfold add_spot. rewrite Hrow. cbv zeta. rewrite Hcol.
      eexists. split; [reflexivity |]. simpl.
      split; [reflexivity |].
      split; [apply widths_set_nth, length_set_nth |].
      assert (Hline : nth_error (spots f) i = Some (nth i (spots f) [])).
      { now apply nth_error_nth'. }
      split.
      * unfold cell_at. rewrite nth_error_set_nth_same by exact Hi.
        now apply nth_error_set_nth_same.
      * intros i' j' Hne. unfold cell_at.
        destruct (Nat.eq_dec i' i) as [-> | Hi'].
        -- rewrite nth_error_set_nth_same by exact Hi. rewrite Hline.
           apply nth_error_set_nth_other. destruct Hne; congruence.
        -- now rewrite nth_error_set_nth_other.
Qed.

Lemma populated_empty_row (n : nat) :
  populated (repeat (@None ref) n) = [].
Proof. induction n as [| n IH]; simpl; auto. Qed.

Lemma populated_empty_grid (m n : nat) :
  populated (List.concat (repeat (repeat (@None ref) n) m)) = [].
Proof.
  induction m as [| m IH]; simpl; [reflexivity |].
  now rewrite populated_app, populated_empty_row, IH.
Qed.

(** X12: [ParkingFloor(n, rows, cols)] is a grid of [rows] by [cols] empty
    cells (none at all when either is negative): it has no slot, its free
    count is 0 for every type, and a lot holding only such a floor refuses
    every vehicle without changing anything. *)
Theorem new_floor_is_empty (n rows cols : Z) :
  floor_num (new_floor n rows cols) = n /\
  (forall i j,
      (i < Z.to_nat rows)%nat -> (j < Z.to_nat cols)%nat ->
      cell_at (spots (new_floor n rows cols)) i j = Some None) /\
  (forall i j,
      (Z.to_nat rows <= i)%nat \/ (Z.to_nat cols <= j)%nat ->
      cell_at (spots (new_floor n rows cols)) i j = None) /\
  slots_of [new_floor n rows cols] = [] /\
  (forall t st, get_free_spots (new_floor n rows cols) t st = 0) /\
  (forall nm s v st,
      park_vehicle (add_floor (new_lot nm s) (new_floor n rows cols)) v st =
      (None, st)).
Proof.
  assert (Hslots : slots_of [new_floor n rows cols] = []).
  { rewrite slots_of_single. apply populated_empty_grid. }
  split; [reflexivity |].
  split; [| split; [| split; [exact Hslots | split]]].
  - intros i j Hi Hj. unfold cell_at. simpl.
    rewrite nth_error_repeat by exact Hi. now apply nth_error_repeat.
  - intros i j Hij. unfold cell_at. simpl.
    destruct (Nat.lt_ge_cases i (Z.to_nat rows)) as [Hi | Hi].
    + rewrite nth_error_repeat by exact Hi.
      apply nth_error_None. rewrite repeat_length. lia.
    + match goal with
      | |- match ?e with _ => _ end = _ =>
          assert (Hnone : e = None)
            by (apply nth_error_None; now rewrite repeat_length);
          now rewrite Hnone
      end.
  - intros t st. now rewrite get_free_spots_slots, Hslots.
  - intros nm s v st. unfold park_vehicle. simpl.
    destruct (find_spot_cases s [new_floor n rows cols] v st)
      as [(r & _ & Hfirst) | [Heq _]]; [| exact Heq].
    apply first_such_in in Hfirst as [Hin _].
    apply in_slots_scan_order in Hin. rewrite Hslots in Hin. destruct Hin.
Qed.

(** ** Appending a floor *)

Lemma slots_of_app (fs1 fs2 : list ParkingFloor) :
  slots_of (fs1 ++ fs2) = slots_of fs1 ++ slots_of fs2.
Proof.
  unfold slots_of, cells_of. now rewrite flat_map_app, populated_app.
Qed.

(** X13: a floor appended with [add_floor] is consulted last.  Under the
    first-available strategy [park_vehicle] does on the larger lot what it
    did before whenever it found a slot before, and only otherwise scans
    the new floor; [unpark_vehicle] likewise looks at the new floor only
    when the number is on none of the earlier floors. *)
Theorem appended_floor_is_scanned_last (lot : ParkingLot) (f : ParkingFloor) :
  (forall v st,
      strategy lot = FirstAvailable ->
      park_vehicle (add_floor lot f) v st =
      match fst (park_vehicle lot v st) with
      | Some _ => park_vehicle lot v st
      | None => FirstAvailableStrategy.find_spot [f] v st
      end) /\
  (forall num st,
      unpark_vehicle (add_floor lot f) num st =
      match fst (unpark_vehicle lot num st) with
      | Some _ => unpark_vehicle lot num st
      | None => unpark_vehicle (mkLot (name lot) [f] (strategy lot)) num st
      end).
Proof.
  split.
  - intros v st Hs. unfold park_vehicle, add_floor. cbn [strategy floors].
    rewrite Hs. unfold find_spot. cbv beta iota.
    rewrite !FirstAvailableFacts.first_available_search, slots_of_app, find_app.
    destruct (find (fits v st) (slots_of (floors lot))); reflexivity.
  - intros num st. rewrite !unpark_vehicle_vacate. simpl.
    rewrite slots_of_app, find_app.
    destruct (find (occupied_by num st) (slots_of (floors lot))) as [r |] eqn:Hf;
      simpl; [| reflexivity].
    apply find_some in Hf as [_ Hocc].
    apply occupied_by_true in Hocc as (w & Hw & _). now rewrite Hw.
Qed.

Lemma appended_floor_is_scanned_last_witness :
  park_vehicle (add_floor Demo.lot Demo.basement) Demo.v1 Demo.st0 =
  park_vehicle Demo.lot Demo.v1 Demo.st0.
Proof.
  apply (proj1 (appended_floor_is_scanned_last Demo.lot Demo.basement)
           Demo.v1 Demo.st0 eq_refl).
Defined.

Lemma count_in_floors_app fs1 fs2 n t st :
  Count.in_floors (fs1 ++ fs2) n t st =
  if existsb (fun g => floor_num g =? n) fs1
  then Count.in_floors fs1 n t st
  else Count.in_floors fs2 n t st.
Proof.
  induction fs1 as [| g fs1 IH]; simpl; [reflexivity |].
  destruct (floor_num g =? n); simpl; [reflexivity | exact IH].
Qed.

(** X14: [count_free_spots] reads the first floor that carries the asked
    [floor_num].  Appending a floor whose number is already in the lot
    therefore changes no answer for that number: the new floor is never
    counted.  For a number no earlier floor carries, the answer is the new
    floor's free count if the new floor carries it, and 0 if not. *)
Theorem count_free_spots_after_add_floor (lot : ParkingLot) (f : ParkingFloor)
  (n : Z) (t : string) (st : store) :
  ((exists g, In g (floors lot) /\ floor_num g = n) ->
   count_free_spots (add_floor lot f) n t st = count_free_spots lot n t st) /\
  ((forall g, In g (floors lot) -> floor_num g <> n) ->
   count_free_spots (add_floor lot f) n t st =
   if floor_num f =? n then get_free_spots f t st else 0).
Proof.
  unfold count_free_spots. simpl. rewrite count_in_floors_app. split.
  - intros (g & Hg & Hn).
    assert (Hex : existsb (fun g => floor_num g =? n) (floors lot) = true).
    { apply existsb_exists. exists g. split; [exact Hg | now apply Z.eqb_eq]. }
    now rewrite Hex.
  - intros Hnone.
    assert (Hex : existsb (fun g => floor_num g =? n) (floors lot) = false).
    { destruct (existsb _ (floors lot)) eqn:E; [| reflexivity].
      apply existsb_exists in E as (g & Hg & Hn).
      apply Z.eqb_eq in Hn. now destruct (Hnone g Hg). }
    now rewrite Hex.
Qed.

Lemma count_free_spots_after_add_floor_witness :
  count_free_spots
    (add_floor Demo.lot (mkFloor 0 [[Some 4%nat; Some 5%nat]])) 0
    VehicleType.CAR Demo.st0 =
  count_free_spots Demo.lot 0 VehicleType.CAR Demo.st0.
Proof.
  apply (proj1 (count_free_spots_after_add_floor Demo.lot
                  (mkFloor 0 [[Some 4%nat; Some 5%nat]]) 0 VehicleType.CAR
                  Demo.st0)).
  exists Demo.floor0. split; [now left | reflexivity].
Defined.

(** ** Bounds on the free count *)

Lemma disjoint_filters (p q : ref -> bool) (l : list ref) :
  (forall x, p x = true -> q x = false) ->
  (List.length (filter p l) + List.length (filter q l) <= List.length l)%nat.
Proof.
  intros Hdis. induction l as [| x l IH]; simpl; [lia |].
  destruct (p x) eqn:Hp.
  - rewrite (Hdis x Hp). simpl. lia.
  - destruct (q x); simpl; lia.
Qed.

Lemma populated_length (cs : list cell) :
  (List.length (populated cs) <= List.length cs)%nat.
Proof.
  induction cs as [| [r |] cs IH]; simpl; lia.
Qed.

(** X17: the free count of a floor for a type lies between 0 and the
    number of the floor's populated cells, which is at most the number of
    its cells; and the free counts for two different types together do not
    exceed the number of populated cells. *)
Theorem get_free_spots_bounds (f : ParkingFloor) (t : string) (st : store) :
  0 <= get_free_spots f t st <= Z.of_nat (List.length (slots_of [f])) /\
  (List.length (slots_of [f]) <= List.length (List.concat (spots f)))%nat /\
  forall t',
    t' <> t ->
    get_free_spots f t st + get_free_spots f t' st <=
    Z.of_nat (List.length (slots_of [f])).
Proof.
  rewrite get_free_spots_slots. split; [| split].
  - pose proof (filter_length_le (free_of_type t st) (slots_of [f])). lia.
  - rewrite slots_of_single. apply populated_length.
  - intros t' Hne. rewrite get_free_spots_slots.
    pose proof (disjoint_filters (free_of_type t st) (free_of_type t' st)
                  (slots_of [f])) as Hsum.
    assert (Hdis : forall x, free_of_type t st x = true ->
                             free_of_type t' st x = false).
    { intros x Hx. unfold free_of_type in *.
      apply andb_true_iff in Hx as [_ Hty]. apply String.eqb_eq in Hty.
      rewrite Hty. apply String.eqb_neq in Hne.
      rewrite String.eqb_sym, Hne. apply andb_false_r. }
    specialize (Hsum Hdis). lia.
Qed.

(** ** The slot offered depends on the type alone *)

(** X18: [park_vehicle] looks at a vehicle's type only: two vehicles of
    the same type are given the same slot from the same state, whatever
    their numbers, even when the number is already in the lot. *)
Theorem park_vehicle_looks_at_type_only (lot : ParkingLot) (v v' : Vehicle)
  (st : store) :
  type v = type v' ->
  fst (park_vehicle lot v st) = fst (park_vehicle lot v' st).
Proof.
  intros Hty. unfold park_vehicle. rewrite !find_spot_as_search.
  assert (Hfits : find (fits v st) (slots_of (scan_order (strategy lot)
                                               (floors lot))) =
                  find (fits v' st) (slots_of (scan_order (strategy lot)
                                                (floors lot)))).
  { apply find_ext_in. intros r _. unfold fits. now rewrite Hty. }
  rewrite Hfits.
  now destruct (find (fits v' st) _).
Qed.

Lemma park_vehicle_looks_at_type_only_witness :
  fst (park_vehicle Demo.lot Demo.v1 Demo.st1) =
  fst (park_vehicle Demo.lot Demo.v4 Demo.st1).
Proof.
  apply park_vehicle_looks_at_type_only. reflexivity.
Defined.

(** ** The further properties at work on the demo lot *)

Lemma search_vehicle_reports_first_witness :
  search_vehicle Demo.lot (number Demo.v1) Demo.st1 =
  Some (Search.message (number Demo.v1) Demo.floor0 (Demo.st1 0%nat)).
Proof.
  apply (proj1 (proj2 (search_vehicle_reports_first Demo.lot
                         (number Demo.v1) Demo.st1))
           [] Demo.floor0 [] 0%nat).
  - reflexivity.
  - intros y [].
  - exists [], [1%nat; 2%nat; 3%nat]. repeat split. intros y [].
Defined.

Lemma search_agrees_with_unpark_witness :
  fst (unpark_vehicle Demo.lot (number Demo.v2) Demo.st1) = None.
Proof.
  apply (proj1 (search_agrees_with_unpark Demo.lot (number Demo.v2)
                  Demo.st1)).
  reflexivity.
Defined.

Lemma run_keeps_layout_and_outsiders_witness :
  exec Demo.lot [OPark Demo.v1; OPark Demo.v4; OUnpark (number Demo.v1)]
    Demo.st0 4%nat = Demo.st0 4%nat.
Proof.
  apply (proj2 (run_keeps_layout_and_outsiders Demo.lot
                  [OPark Demo.v1; OPark Demo.v4; OUnpark (number Demo.v1)]
                  Demo.st0 4%nat)).
  intros Hin. vm_compute in Hin.
  destruct Hin as [H | [H | [H | [H | []]]]]; discriminate H.
Defined.

Lemma unpark_outcome_witness :
  fst (unpark 1%nat Demo.st1) = None /\
  same_store (snd (unpark 1%nat Demo.st1)) Demo.st1.
Proof.
  destruct (unpark_outcome 1%nat Demo.st1) as (_ & _ & _ & _ & Hfree & _).
  apply Hfree. reflexivity.
Defined.

Lemma add_spot_outcome_witness :
  add_spot (new_floor 0 2 2) 7%nat 2 0 = None /\
  exists f',
    add_spot (new_floor 0 2 2) 7%nat (-1) 1 = Some f' /\
    cell_at (spots f') 1 1 = Some (Some 7%nat).
Proof.
  destruct (add_spot_outcome (new_floor 0 2 2) 7%nat 2 0) as [Hout _].
  split; [apply Hout; simpl; lia |].
  destruct (add_spot_outcome (new_floor 0 2 2) 7%nat (-1) 1) as [_ Hin].
  destruct Hin as [_ Hcol]; [simpl; lia |].
  destruct Hcol as (f' & Heq & _ & _ & Hcell & _); [simpl; lia |].
  exists f'. split; [exact Heq | exact Hcell].
Defined.

Lemma new_floor_is_empty_witness :
  cell_at (spots (new_floor 3 2 2)) 1 1 = Some None /\
  cell_at (spots (new_floor 3 2 2)) 2 0 = None.
Proof.
  destruct (new_floor_is_empty 3 2 2) as (_ & Hin & Hout & _).
  split; [apply Hin; simpl; lia | apply Hout; simpl; lia].
Defined.

Lemma get_free_spots_bounds_witness :
  get_free_spots Demo.floor0 VehicleType.CAR Demo.st0 +
  get_free_spots Demo.floor0 VehicleType.BIKE Demo.st0 <=
  Z.of_nat (List.length (slots_of [Demo.floor0])).
Proof.
  apply (proj2 (proj2 (get_free_spots_bounds Demo.floor0 VehicleType.CAR
                         Demo.st0))).
  discriminate.
Defined.
